(** * Homogenized elastic coefficients: the evaluators of
      [sfepy/homogenization/coefs_elastic.py]

    The three classes of the module ([CorrectorsElasticRS], [ElasticCoef],
    [ElasticBiotCoef]) each define one generator, [get_variables].  The
    generators are embedded in a small monad that threads the objects the
    call can reach (the problem context and the resolved [data] mapping),
    collects the records handed to [yield] and stops at the first Python
    exception.

    The scripts beside the package follow: the report functions of
    [test_install.py], the version stamp and the CMake arguments of
    [setup_test.py], and the command table of [sfepy.py]. *)

From Stdlib Require Import Floats.PrimFloat ZArith Ascii.
From stdpp Require Import gmap strings list.

Local Open Scope string_scope.
Local Open Scope Z_scope.

#[local] Set Warnings "-inexact-float".

(** ** Python values used by the module *)

(** The key carried by a [KeyError]: a name, or an index pair [(ir, ic)]. *)
Inductive key : Type :=
  | KStr (s : string)
  | KPair (ir ic : Z).

(** The exceptions the generators can stop with. *)
Inductive exn : Type :=
  | KeyError (k : key)
  | IndexError
  | ValueError
  | TypeError
  | AttributeError.

(** A one-dimensional [float64] array. *)
Abbreviation ndarray := (list float).

(** A [slice(start, stop)] object, step 1. *)
Record slice : Type := Slice { start : Z; stop : Z }.

(** A substitution record [(variable_name, field_value)]. *)
Abbreviation record := (string * ndarray)%type.

(** ** Collaborators whose classes live outside this module *)

(** Modelled from the spec: the degrees-of-freedom layout [di] of a
    corrector; [indx] maps a primary-variable name to the contiguous
    sub-range of the state vector holding that variable. *)
Record DofInfo : Type := { indx : gmap string slice }.

(** Modelled from the spec: a Corrector, with [states] mapping an index pair
    to the concatenated state vector and [di.indx] the shared layout. *)
Record Corrector : Type := {
  di : DofInfo;
  states : gmap (Z * Z) ndarray
}.

(** Modelled from the spec: what a name of [requires] resolves to, a
    perturbation field (a mapping from index pair to base field value) or a
    Corrector. *)
Inductive Dep : Type :=
  | Pis (pis : gmap (Z * Z) ndarray)
  | Corr (corrs : Corrector).

(** Modelled from the spec: field metadata of a variable (node count). *)
Record Field : Type := { n_nod : nat }.

(** Modelled from the spec: a variable of the problem context, with the
    name of its primary variable and its field. *)
Record FieldVariable : Type := {
  primary_var_name : string;
  field : Field
}.

(** Modelled from the spec: the problem context; [variables] looks a
    declared variable name up. *)
Record Problem : Type := { variables : gmap string FieldVariable }.

(** The attributes every evaluator class declares ([self.requires],
    [self.variables]). *)
Record Evaluator : Type := {
  self_requires : list string;
  self_variables : list string
}.

(** ** The generator monad *)

(** What draining a generator leaves behind: the reachable objects after the
    run, the records yielded in order, and how the run ended (an exception,
    or normal exhaustion with a value). *)
Record Outcome (S A : Type) : Type := mkOutcome {
  final : S;
  yielded : list record;
  status : exn + A
}.
Arguments mkOutcome {S A} _ _ _.
Arguments final {S A} _.
Arguments yielded {S A} _.
Arguments status {S A} _.

Definition Gen (S A : Type) : Type := S -> Outcome S A.

Definition gen_ret {S A} (a : A) : Gen S A :=
  fun s => mkOutcome s [] (inr a).

Definition gen_bind {S A B} (k : A -> Gen S B) (m : Gen S A) : Gen S B :=
  fun s =>
    let o := m s in
    match status o with
    | inl e => mkOutcome (final o) (yielded o) (inl e)
    | inr a =>
        let o' := k a (final o) in
        mkOutcome (final o') (yielded o ++ yielded o') (status o')
    end.

#[global] Instance Gen_ret {S} : MRet (Gen S) := @gen_ret S.
#[global] Instance Gen_bind {S} : MBind (Gen S) := @gen_bind S.

(** [raise e] *)
Definition raise {S A} (e : exn) : Gen S A :=
  fun s => mkOutcome s [] (inl e).

(** [yield r] *)
Definition yield {S} (r : record) : Gen S unit :=
  fun s => mkOutcome s [r] (inr tt).

(** Reading an object the call can reach. *)
Definition gets {S A} (f : S -> A) : Gen S A :=
  fun s => mkOutcome s [] (inr (f s)).

(** Writing to an object the call can reach (an item or attribute store);
    the module has no such statement, so no generator below uses it. *)
Definition modify {S} (f : S -> S) : Gen S unit :=
  fun s => mkOutcome (f s) [] (inr tt).

(** An operation that reads nothing: it returns or raises. *)
Definition lift {S A} (r : exn + A) : Gen S A :=
  match r with
  | inl e => raise e
  | inr a => mret a
  end.

(** A list comprehension [[f x for x in l]], evaluated left to right. *)
Fixpoint comprehension {S A B} (f : A -> Gen S B) (l : list A)
  : Gen S (list B) :=
  match l with
  | [] => mret []
  | x :: l' => y ← f x; ys ← comprehension f l'; mret (y :: ys)
  end.

(** ** Subscripts *)

(** [d[k]] on a dict keyed by names. *)
Definition dict_getitem {V} (d : gmap string V) (k : string) : exn + V :=
  match d !! k with
  | Some v => inr v
  | None => inl (KeyError (KStr k))
  end.

(** [d[ir, ic]] on a mapping keyed by index pairs. *)
Definition pair_getitem {V} (d : gmap (Z * Z) V) (ir ic : Z) : exn + V :=
  match d !! (ir, ic) with
  | Some v => inr v
  | None => inl (KeyError (KPair ir ic))
  end.

(** [l[i]] on a list: a negative index counts from the end. *)
Definition list_getitem {A} (l : list A) (i : Z) : exn + A :=
  let n := Z.of_nat (length l) in
  let j := if i <? 0 then i + n else i in
  if (0 <=? j) && (j <? n) then
    match l !! Z.to_nat j with
    | Some x => inr x
    | None => inl IndexError
    end
  else inl IndexError.

(** The bound of a slice clipped to a sequence of length [n]. *)
Definition clip (n b : Z) : Z :=
  if b <? 0 then Z.max (b + n) 0 else Z.min b n.

(** [a[slice(start, stop)]] on a one-dimensional array. *)
Definition slice_getitem (a : ndarray) (sl : slice) : ndarray :=
  let n := Z.of_nat (length a) in
  let lo := clip n (start sl) in
  let hi := clip n (stop sl) in
  take (Z.to_nat (hi - lo)) (drop (Z.to_nat lo) a).

(** ** numpy *)

Module nm.

(** [nm.ones((n,), dtype=nm.float64)] *)
Definition ones (n : nat) : ndarray := replicate n 1%float.

(** [a + b] on one-dimensional arrays: elementwise when the lengths
    agree, broadcasting a length-one operand, [ValueError] otherwise. *)
Definition add (a b : ndarray) : exn + ndarray :=
  if decide (length a = length b) then inr (zip_with PrimFloat.add a b)
  else
    match a, b with
    | [x], _ => inr (map (fun y => PrimFloat.add x y) b)
    | _, [y] => inr (map (fun x => PrimFloat.add x y) a)
    | _, _ => inl ValueError
    end.

End nm.

(** ** Attribute and item loads that depend on the class of the object *)

(** [pis[ir, ic]]: a Corrector is not subscriptable. *)
Definition dep_getitem (d : Dep) (ir ic : Z) : exn + ndarray :=
  match d with
  | Pis pis => pair_getitem pis ir ic
  | Corr _ => inl TypeError
  end.

(** [corrs.di] and [corrs.states]: a perturbation-field mapping has neither
    attribute. *)
Definition dep_corrector (d : Dep) : exn + Corrector :=
  match d with
  | Corr corrs => inr corrs
  | Pis _ => inl AttributeError
  end.

(** [a, b = l] *)
Definition unpack2 {A} (l : list A) : exn + (A * A) :=
  match l with
  | [a; b] => inr (a, b)
  | _ => inl ValueError
  end.

(** ** The objects a call can reach *)

(** The arguments [problem] and [data] of a coefficient's [get_variables]
    are references to shared objects; [Reach] holds what they point to. *)
Record Reach : Type := {
  the_problem : Problem;
  the_data : gmap string Dep
}.

(** State types through which the [data] mapping can be read. *)
Class HasData (S : Type) := data_of : S -> gmap string Dep.

#[global] Instance data_HasData : HasData (gmap string Dep) := fun d => d.
#[global] Instance Reach_HasData : HasData Reach := the_data.

(** [data[ii]] *)
Definition data_getitem {S} `{HasData S} (ii : string) : Gen S Dep :=
  d ← gets data_of; lift (dict_getitem d ii).

(** [problem.variables[var_name]] *)
Definition problem_variable (var_name : string) : Gen Reach FieldVariable :=
  p ← gets the_problem; lift (dict_getitem (variables p) var_name).

(** ** class CorrectorsElasticRS( CorrDimDim ) *)

Module CorrectorsElasticRS.

Definition body (self : Evaluator) (ir ic : Z)
  : Gen (gmap string Dep) unit :=
  name ← lift (list_getitem (self_requires self) 0);
  pis ← data_getitem name;
  var_name ← lift (list_getitem (self_variables self) (-1));
  p ← lift (dep_getitem pis ir ic);
  yield (var_name, p).

(** [get_variables( self, ir, ic, data )], drained. *)
Definition get_variables (self : Evaluator) (ir ic : Z)
    (data : gmap string Dep) : Outcome (gmap string Dep) unit :=
  body self ir ic data.

End CorrectorsElasticRS.

(** ** class ElasticCoef( CoefSymSym ) *)

Module ElasticCoef.

Definition mode2var : gmap string Z := {[ "row" := 0; "col" := 1 ]}.

Definition body (self : Evaluator) (ir ic : Z) (mode : string)
  : Gen Reach unit :=
  deps ← comprehension data_getitem (self_requires self);
  '(pis, corrs) ← lift (unpack2 deps);
  i ← lift (dict_getitem mode2var mode);
  var_name ← lift (list_getitem (self_variables self) i);
  var ← problem_variable var_name;
  let c_name := primary_var_name var in
  c ← lift (dep_corrector corrs);
  ix ← lift (dict_getitem (indx (di c)) c_name);
  st ← lift (pair_getitem (states c) ir ic);
  let omega := slice_getitem st ix in
  p ← lift (dep_getitem pis ir ic);
  pi ← lift (nm.add p omega);
  yield (var_name, pi).

(** [get_variables( self, problem, ir, ic, data, mode )], drained. *)
Definition get_variables (self : Evaluator) (problem : Problem)
    (ir ic : Z) (data : gmap string Dep) (mode : string)
  : Outcome Reach unit :=
  body self ir ic mode {| the_problem := problem; the_data := data |}.

End ElasticCoef.

(** ** class ElasticBiotCoef( CoefSym ) *)

Module ElasticBiotCoef.

Definition body (self : Evaluator) (ir ic : Z) (mode : string)
  : Gen Reach unit :=
  if decide (mode = "col") then
    var_name ← lift (list_getitem (self_variables self) 0);
    one_var ← problem_variable var_name;
    let one := nm.ones (n_nod (field one_var)) in
    yield (var_name, one)
  else
    var_name ← lift (list_getitem (self_variables self) 1);
    var ← problem_variable var_name;
    let c_name := primary_var_name var in
    deps ← comprehension data_getitem (self_requires self);
    corrs ← lift (list_getitem deps 0);
    c ← lift (dep_corrector corrs);
    ix ← lift (dict_getitem (indx (di c)) c_name);
    st ← lift (pair_getitem (states c) ir ic);
    let omega := slice_getitem st ix in
    yield (var_name, omega).

(** [get_variables( self, problem, ir, ic, data, mode )], drained. *)
Definition get_variables (self : Evaluator) (problem : Problem)
    (ir ic : Z) (data : gmap string Dep) (mode : string)
  : Outcome Reach unit :=
  body self ir ic mode {| the_problem := problem; the_data := data |}.

End ElasticBiotCoef.

(** ** A concrete scenario: one displacement-like variable [u], three
    degrees of freedom *)

Module Scenario.

Definition elastic : Evaluator :=
  {| self_requires := ["pis"; "corrs_rs"]; self_variables := ["u"; "v"] |}.

Definition biot : Evaluator :=
  {| self_requires := ["corrs_rs"]; self_variables := ["one"; "u"] |}.

Definition rs : Evaluator :=
  {| self_requires := ["pis"]; self_variables := ["u"; "v"; "Pi"] |}.

Definition corrs : Corrector :=
  {| di := {| indx := {[ "u" := Slice 0 3 ]} |};
     states := {[ (0, 1) := [1; 2; 3]%float ]} |}.

Definition pis : gmap (Z * Z) ndarray :=
  {[ (0, 1) := [0.1; 0.1; 0.1]%float ]}.

Definition data : gmap string Dep :=
  {[ "pis" := Pis pis; "corrs_rs" := Corr corrs ]}.

Definition problem : Problem :=
  {| variables :=
       {[ "u" := {| primary_var_name := "u"; field := {| n_nod := 3 |} |};
          "v" := {| primary_var_name := "u"; field := {| n_nod := 3 |} |};
          "one" := {| primary_var_name := "p"; field := {| n_nod := 4 |} |}
       ]} |}.

End Scenario.

(** ** The symmetric coefficient evaluators as one family *)

Inductive Family : Type := ElasticCoefK | ElasticBiotCoefK.

(** Dispatch of [get_variables] on the class of the evaluator. *)
Definition get_variables_of (k : Family)
  : Evaluator -> Problem -> Z -> Z -> gmap string Dep -> string ->
    Outcome Reach unit :=
  match k with
  | ElasticCoefK => ElasticCoef.get_variables
  | ElasticBiotCoefK => ElasticBiotCoef.get_variables
  end.

(** A valid call: the mode is ['row'] or ['col'] and everything the
    requested branch looks up is there (for the elastic tensor, the two
    arrays can also be added). *)
Inductive valid_call
  : Family -> Evaluator -> Problem -> Z -> Z -> gmap string Dep -> string ->
    Prop :=
  | valid_ElasticCoef self problem ir ic data mode
      p c pis corrs v var sl st pv pi :
      self_requires self = [p; c] ->
      data !! p = Some (Pis pis) ->
      data !! c = Some (Corr corrs) ->
      mode = "row" \/ mode = "col" ->
      self_variables self !! (if decide (mode = "row") then 0 else 1)%nat
        = Some v ->
      variables problem !! v = Some var ->
      indx (di corrs) !! primary_var_name var = Some sl ->
      states corrs !! (ir, ic) = Some st ->
      pis !! (ir, ic) = Some pv ->
      nm.add pv (slice_getitem st sl) = inr pi ->
      valid_call ElasticCoefK self problem ir ic data mode
  | valid_ElasticBiotCoef_col self problem ir ic data v one_var :
      self_variables self !! 0%nat = Some v ->
      variables problem !! v = Some one_var ->
      valid_call ElasticBiotCoefK self problem ir ic data "col"
  | valid_ElasticBiotCoef_row self problem ir ic data
      v var corrs ds sl st :
      self_variables self !! 1%nat = Some v ->
      variables problem !! v = Some var ->
      Forall2 (fun ii d => data !! ii = Some d) (self_requires self)
        (Corr corrs :: ds) ->
      indx (di corrs) !! primary_var_name var = Some sl ->
      states corrs !! (ir, ic) = Some st ->
      valid_call ElasticBiotCoefK self problem ir ic data "row".

(** The record of the requested mode, read off the arguments: for the
    elastic tensor the variable of the mode with [pis[ir,ic] + omega], for
    the Biot coefficient the first variable with the ones (['col']) or the
    second with the corrector sub-vector (['row']).  The premises are every
    lookup of the branch and, for the elastic tensor, the addition. *)
Inductive mode_record
  : Family -> Evaluator -> Problem -> Z -> Z -> gmap string Dep -> string ->
    record -> Prop :=
  | mode_record_ElasticCoef self problem ir ic data mode
      p c pis corrs v var sl st pv pi :
      self_requires self = [p; c] ->
      data !! p = Some (Pis pis) ->
      data !! c = Some (Corr corrs) ->
      mode = "row" \/ mode = "col" ->
      self_variables self !! (if decide (mode = "row") then 0 else 1)%nat
        = Some v ->
      variables problem !! v = Some var ->
      indx (di corrs) !! primary_var_name var = Some sl ->
      states corrs !! (ir, ic) = Some st ->
      pis !! (ir, ic) = Some pv ->
      nm.add pv (slice_getitem st sl) = inr pi ->
      mode_record ElasticCoefK self problem ir ic data mode (v, pi)
  | mode_record_ElasticBiotCoef_col self problem ir ic data v one_var :
      self_variables self !! 0%nat = Some v ->
      variables problem !! v = Some one_var ->
      mode_record ElasticBiotCoefK self problem ir ic data "col"
        (v, replicate (n_nod (field one_var)) 1%float)
  | mode_record_ElasticBiotCoef_row self problem ir ic data
      v var corrs ds sl st :
      self_variables self !! 1%nat = Some v ->
      variables problem !! v = Some var ->
      Forall2 (fun ii d => data !! ii = Some d) (self_requires self)
        (Corr corrs :: ds) ->
      indx (di corrs) !! primary_var_name var = Some sl ->
      states corrs !! (ir, ic) = Some st ->
      mode_record ElasticBiotCoefK self problem ir ic data "row"
        (v, slice_getitem st sl).

(** ** The comprehension over [requires], without the monad *)

(** [[data[ii] for ii in l]] as a function of the mapping alone: the list
    of resolved dependencies, or the [KeyError] of the first name that is
    not a key. *)
Fixpoint resolve (data : gmap string Dep) (l : list string)
  : exn + list Dep :=
  match l with
  | [] => inr []
  | ii :: l' =>
      match data !! ii with
      | None => inl (KeyError (KStr ii))
      | Some d =>
          match resolve data l' with
          | inl e => inl e
          | inr ds => inr (d :: ds)
          end
      end
  end.

(** * The install test script, [test_install.py]

    The script runs commands and compares key words of their output.  The
    functions that judge an output ([report], [report2], [report_tests])
    are embedded with what they hand to the logger; running the commands
    themselves ([check_output], [main]) is left out. *)

Module test_install.

(** ** Strings *)

(** A line feed. *)
Definition LF : ascii := ascii_of_nat 10.

(** [str(ok)] *)
Definition str_bool (b : bool) : string :=
  if b then "True" else "False".

(** [s in out] on strings: [s] occurs in [out] at some position. *)
Fixpoint contains (s out : string) : bool :=
  String.prefix s out ||
  match out with
  | EmptyString => false
  | String _ out' => contains s out'
  end.

(** [out.split('\n')] *)
Fixpoint split_lines (out : string) : list string :=
  match out with
  | EmptyString => [EmptyString]
  | String c out' =>
      if Ascii.eqb c LF then EmptyString :: split_lines out'
      else
        match split_lines out' with
        | [] => [String c EmptyString]
        | l :: ls => String c l :: ls
        end
  end.

(** [c.isspace()] for a code point below 256. *)
Definition isspace (c : ascii) : bool :=
  let n := nat_of_ascii c in
  ((9 <=? n) && (n <=? 13) || (28 <=? n) && (n <=? 32) ||
   (n =? 133) || (n =? 160))%nat.

(** [line.split()]: the maximal runs of characters that are not white
    space. *)
Fixpoint split (line : string) : list string :=
  match line with
  | EmptyString => []
  | String c line' =>
      if isspace c then split line'
      else
        match line' with
        | EmptyString => [String c EmptyString]
        | String c' _ =>
            if isspace c' then String c EmptyString :: split line'
            else
              match split line' with
              | [] => [String c EmptyString]
              | t :: ts => String c t :: ts
              end
        end
  end.

(** [s[i]] on a string: the character as a string of length one. *)
Definition str_getitem (s : string) (i : Z) : exn + string :=
  match list_getitem (String.list_ascii_of_string s) i with
  | inl e => inl e
  | inr c => inr (String c EmptyString)
  end.

(** ** Logging *)

(** [logging.DEBUG < logging.INFO < logging.ERROR] *)
Inductive level : Type := DEBUG | INFO | ERROR.

Definition levelno (l : level) : Z :=
  match l with
  | DEBUG => 10
  | INFO => 20
  | ERROR => 40
  end.

(** Where a handler writes: the console of a [StreamHandler()], or the file
    of a [FileHandler(filename)]. *)
Inductive stream : Type :=
  | Console
  | LogFile (filename : string).

Record Handler : Type := { h_stream : stream; h_level : level }.

(** A logger whose level has been set, with the handlers added so far. *)
Record Logger : Type := { l_level : level; l_handlers : list Handler }.

(** [_get_logger(filename)], given the handlers the logger named
    ['test_install.py'] already has: the level is set to [DEBUG] and two
    new handlers are added. *)
Definition _get_logger (filename : string) (handlers : list Handler)
  : Logger :=
  let console_handler := {| h_stream := Console; h_level := INFO |} in
  let file_handler := {| h_stream := LogFile filename; h_level := DEBUG |} in
  {| l_level := DEBUG;
     l_handlers := handlers ++ [console_handler; file_handler] |}.

(** [logger = _get_logger()], at import. *)
Definition logger : Logger := _get_logger "test_install.log" [].

(** One message written to one stream. *)
Abbreviation written := (stream * string)%type.

(** [lg.log(lvl, msg)]: the message goes to every handler of the logger
    whose level it reaches, if it reaches the level of the logger. *)
Definition log (lg : Logger) (lvl : level) (msg : string) : list written :=
  if levelno (l_level lg) <=? levelno lvl then
    omap (fun h =>
            if levelno (h_level h) <=? levelno lvl
            then Some (h_stream h, msg) else None)
         (l_handlers lg)
  else [].

(** ['*' * 55] *)
Definition stars : string := String.string_of_list_ascii (replicate 55 "*"%char).

(** [DEBUG_FMT % out] *)
Definition DEBUG_FMT (out : string) : string :=
  stars +:+ String LF out +:+ String LF stars.

(** ** Results *)

(** The exceptions that leave the report functions. *)
Inductive error : Type :=
  | IndexError
  | UnboundLocalError.

(** What a report function returns: [ok], or [(ok, item)]. *)
Inductive verdict : Type :=
  | Ok (ok : bool)
  | OkItem (ok : bool) (item : string).

(** What a call leaves behind: the messages written, in order, and the
    value returned or the exception raised. *)
Abbreviation Reported := (list written * (error + verdict))%type.

(** ** [report2] *)

(** The [for s in items] loop of [report2]: the messages, [ok], and the
    loop variable [s] ([None] while it is unbound). *)
Fixpoint report2_loop (out : string) (items : list string)
    (s : option string) : list written * (bool * option string) :=
  match items with
  | [] => ([], (true, s))
  | x :: items' =>
      let w := log logger INFO ("  checking: " +:+ x) in
      if contains x out then
        let '(ws, r) := report2_loop out items' (Some x) in ((w ++ ws)%list, r)
      else (w, (false, Some x))
  end.

Definition report2 (out name : string) (items : list string)
    (return_item : bool) : Reported :=
  let '(w1, (ok, s)) := report2_loop out items None in
  let w2 := log logger INFO ("  " +:+ name +:+ ": " +:+ str_bool ok) in
  let w3 := if ok then [] else log logger DEBUG (DEBUG_FMT out) in
  ((w1 ++ w2 ++ w3)%list,
   if return_item then
     match s with
     | Some s => inr (OkItem ok s)
     | None => inl UnboundLocalError
     end
   else inr (Ok ok)).

Section Library.

(** [re.findall(pat, line)] for the number pattern of [report]. *)
Variable findall_numbers : string -> list string.

(** [float(s)]; [None] when it raises. *)
Variable float_of_str : string -> option float.

(** The [search] of [report_tests]: the four groups of the first match of
    the summary pattern, or [None]. *)
Variable search :
  string -> option (option string * option string * option string *
                    option string).

(** ** [report] *)

(** The local variable [status] of [report]: a line, or its words. *)
Inductive status_value : Type :=
  | StatusLine (line : string)
  | StatusWords (words : list string).

(** [status[item]] *)
Definition status_getitem (status : status_value) (item : Z)
  : exn + string :=
  match status with
  | StatusLine line => str_getitem line item
  | StatusWords words => list_getitem words item
  end.

(** [abs(float(status_item) - float(value)) < eps], [False] when a
    conversion raises. *)
Definition close_to (status_item value : string) (eps : float) : bool :=
  match float_of_str status_item with
  | None => false
  | Some x =>
      match float_of_str value with
      | None => false
      | Some y => PrimFloat.ltb (PrimFloat.abs (PrimFloat.sub x y)) eps
      end
  end.

Definition report (out name : string) (line item : Z) (value : string)
    (eps : option float) (return_item match_numbers : bool) : Reported :=
  let '(w1, (ok, status)) :=
    match list_getitem (split_lines out) line with
    | inl _ =>
        (log logger ERROR "  not enough output from command!",
         (false, None))
    | inr l =>
        let status :=
          if match_numbers then StatusLine l else StatusWords (split l) in
        let status_item :=
          if match_numbers then list_getitem (findall_numbers l) item
          else status_getitem status item in
        match status_item with
        | inl _ => ([], (false, Some status))
        | inr status_item =>
            (log logger INFO
               ("  comparing: " +:+ status_item +:+ " " +:+ value),
             (match eps with
              | None => String.eqb status_item value
              | Some eps => close_to status_item value eps
              end,
              Some status))
        end
    end in
  let w2 := log logger INFO ("  " +:+ name +:+ ": " +:+ str_bool ok) in
  let w3 := if ok then [] else log logger DEBUG (DEBUG_FMT out) in
  ((w1 ++ w2 ++ w3)%list,
   if return_item then
     match status with
     | None => inl UnboundLocalError
     | Some status =>
         match status_getitem status item with
         | inl _ => inl IndexError
         | inr x => inr (OkItem ok x)
         end
     end
   else inr (Ok ok)).

(** ** [report_tests] *)

(** [stat if stat is not None else '0'] *)
Definition or_zero (stat : option string) : string :=
  match stat with
  | Some s => s
  | None => "0"
  end.

Definition report_tests (out : string) (return_item : bool) : Reported :=
  let '(failed, passed, warnings, seconds) :=
    match search out with
    | Some (g1, g2, g3, g4) =>
        (or_zero g1, or_zero g2, or_zero g3, or_zero g4)
    | None => ("0", "0", "0", "-1")
    end in
  let ok := String.eqb failed "0" in
  let w1 := log logger INFO
              ("  " +:+ failed +:+ " failed, " +:+ passed +:+ " passed, "
               +:+ warnings +:+ " warnings in " +:+ seconds +:+ " seconds") in
  let w2 := if ok then [] else log logger DEBUG (DEBUG_FMT out) in
  ((w1 ++ w2)%list, if return_item then inr (OkItem ok failed) else inr (Ok ok)).

End Library.

(** ** Reading what was written *)

(** [s] occurs in [out]. *)
Definition occurs (s out : string) : Prop :=
  exists pre post, out = pre +:+ s +:+ post.

(** The messages that reached the console, in order. *)
Definition console_lines (ws : list written) : list string :=
  omap (fun w : written =>
          match w.1 with
          | Console => Some w.2
          | LogFile _ => None
          end) ws.

(** The messages that reached the log file, in order. *)
Definition file_lines (ws : list written) : list string :=
  omap (fun w : written =>
          match w.1 with
          | Console => None
          | LogFile _ => Some w.2
          end) ws.

(** What was written reached the console and the log file alike. *)
Definition mirrored (ws : list written) : Prop :=
  file_lines ws = console_lines ws.

(** A call that returned a truth value and wrote to the log file what it
    wrote to the console, followed by the output [out] when the value is
    [False]. *)
Definition saves_failed_output (out : string) (r : Reported) : Prop :=
  exists ok : bool,
    r.2 = inr (Ok ok) /\
    file_lines r.1 =
    (console_lines r.1 ++ (if ok then [] else [DEBUG_FMT out]))%list.

End test_install.

(** * The build script, [setup_test.py]

    The script stamps the version into [version.h] and composes the
    arguments passed to CMake.  The files it reads and writes are lists of
    lines; what [config.Config()] reports is a parameter. *)

Module setup_test.

(** ** Creating [version.h] *)

(** [aux[i] = v] on a list: [IndexError] outside the list. *)
Definition list_setitem {A} (l : list A) (i : nat) (v : A) : exn + list A :=
  if decide (i < length l)%nat then inr (<[i:=v]> l) else inl IndexError.

(** A double quote. *)
Definition DQ : ascii := ascii_of_nat 34.

(** The text looked for in a line: [VERSION], a space, and [0.0.0] between
    double quotes. *)
Definition marker : string :=
  "VERSION " +:+ String DQ "0.0.0" +:+ String DQ "".

(** The body of the loop [for line in fdi], up to [fdo.write(line)]: the
    line to write. *)
Definition stamp_line (VERSION line : string) : exn + string :=
  if test_install.contains marker line then
    match list_setitem (test_install.split line) 2 VERSION with
    | inl e => inl e
    | inr aux => inr (String.concat " " aux +:+ String test_install.LF "")
    end
  else inr line.

(** The loop over the lines of [version.h.in]: the lines written to
    [version.h], and the exception that stopped the loop, if any. *)
Fixpoint stamp (VERSION : string) (fdi : list string)
  : list string * option exn :=
  match fdi with
  | [] => ([], None)
  | line :: fdi' =>
      match stamp_line VERSION line with
      | inl e => ([], Some e)
      | inr line' =>
          let '(fdo, e) := stamp VERSION fdi' in (line' :: fdo, e)
      end
  end.

(** ** The arguments for CMake *)

Definition cmake_bool (py_bool : bool) : string :=
  if py_bool then "ON" else "OFF".

(** [compose_cmake_args()], given what [conf.compile_flags()] and
    [conf.debug_flags()] return. *)
Definition compose_cmake_args (compile_flags debug_flags : list string)
  : list string :=
  let cmake_args :=
    ["-DCMAKE_C_FLAGS=" +:+ String.concat " " compile_flags] in
  let debug_flags : gset string := list_to_set debug_flags in
  let cmake_args :=
    (cmake_args ++
     ["-DDEBUG_FMF=" +:+
      cmake_bool (bool_decide ("DEBUG_FMF" ∈ debug_flags))])%list in
  let cmake_args :=
    (cmake_args ++
     ["-DDEBUG_MESH=" +:+
      cmake_bool (bool_decide ("DEBUG_MESH" ∈ debug_flags))])%list in
  cmake_args.

(** ** Words *)

(** A word: not empty, and without white space. *)
Definition is_word (w : string) : Prop :=
  w <> "" /\
  Forall (fun c => test_install.isspace c = false)
    (String.list_ascii_of_string w).

End setup_test.

(** * The command wrapper, [sfepy.py]

    [get_commands] names every script of the directory [scripts-common]
    after its file.  What [glob.glob] finds in the directory is a
    parameter; paths are POSIX paths. *)

Module sfepy_wrapper.

(** The text before and after the last [c] of [p], if [p] has one:
    [p[:p.rfind(c)]] and [p[p.rfind(c)+1:]]. *)
Fixpoint rcut (c : ascii) (p : string) : option (string * string) :=
  match p with
  | EmptyString => None
  | String x p' =>
      match rcut c p' with
      | Some (a, b) => Some (String x a, b)
      | None => if Ascii.eqb x c then Some (EmptyString, p') else None
      end
  end.

(** [op.basename(p)]: what follows the last slash. *)
Definition basename (p : string) : string :=
  match rcut "/" p with
  | Some (_, name) => name
  | None => p
  end.

(** [op.splitext(name)] for a [name] without slash: the extension starts at
    the last dot, unless nothing but dots comes before it. *)
Definition splitext_name (name : string) : string * string :=
  match rcut "." name with
  | Some (root, ext) =>
      if forallb (Ascii.eqb ".") (String.list_ascii_of_string root)
      then (name, EmptyString)
      else (root, String "." ext)
  | None => (name, EmptyString)
  end.

(** [op.splitext(p)]: only the part after the last slash is looked at. *)
Definition splitext (p : string) : string * string :=
  match rcut "/" p with
  | Some (dir, name) =>
      let '(root, ext) := splitext_name name in
      (dir +:+ String "/" root, ext)
  | None => splitext_name p
  end.

(** [dict(pairs)]: the pairs are inserted in order, a later key
    replacing an earlier equal one. *)
Definition dict (pairs : list (string * string)) : gmap string string :=
  foldl (fun m kv => <[kv.1 := kv.2]> m) ∅ pairs.

(** [get_commands()], given the list [scripts] that [glob.glob] returns. *)
Definition get_commands (scripts : list string) : gmap string string :=
  let cmd := map (fun i => (splitext (basename i)).1) scripts in
  let commands := dict (zip cmd scripts) in
  commands.

(** The path of the script [stem.py] in the directory [bin_dir]. *)
Definition script (bin_dir stem : string) : string :=
  bin_dir +:+ String "/" (stem +:+ ".py").

(** A file name [stem.py] that the pattern ['*.py'] matches inside a
    directory: no slash in it, and no dot in front. *)
Definition matched_stem (stem : string) : Prop :=
  match stem with
  | EmptyString => False
  | String c _ =>
      c <> "."%char /\
      Forall (fun x => x <> "/"%char) (String.list_ascii_of_string stem)
  end.

End sfepy_wrapper.

(** ** Shapes of generators *)

(** A computation that only reads: it leaves the reachable objects as they
    were and yields nothing. *)
Definition reads {S A} (m : Gen S A) : Prop :=
  forall s, final (m s) = s /\ yielded (m s) = [].

(** A generator that leaves the reachable objects as they were and either
    yields one record and is exhausted, or raises before yielding. *)
Definition yields_once {S} (g : Gen S unit) : Prop :=
  forall s,
    final (g s) = s /\
    match status (g s) with
    | inr _ => exists r, yielded (g s) = [r]
    | inl _ => yielded (g s) = []
    end.

(** ** Running the monad *)

Section Running.
Context {S : Type}.

Lemma bind_run {A B} (m : Gen S A) (k : A -> Gen S B) (s : S) :
  (m ≫= k) s =
  match status (m s) with
  | inl e => mkOutcome (final (m s)) (yielded (m s)) (inl e)
  | inr a => mkOutcome (final (k a (final (m s))))
               (yielded (m s) ++ yielded (k a (final (m s))))
               (status (k a (final (m s))))
  end.
Proof. reflexivity. Qed.

Lemma bind_pure {A B} (m : Gen S A) (k : A -> Gen S B) (s : S) (a : A) :
  m s = mkOutcome s [] (inr a) -> (m ≫= k) s = k a s.
Proof.
  intros Hm. rewrite bind_run, Hm. simpl.
  destruct (k a s); reflexivity.
Qed.

Lemma bind_raise {A B} (m : Gen S A) (k : A -> Gen S B) (s s' : S) rs e :
  m s = mkOutcome s' rs (inl e) -> (m ≫= k) s = mkOutcome s' rs (inl e).
Proof. intros Hm. rewrite bind_run, Hm. reflexivity. Qed.

Lemma bind_lift_ok {A B} (a : A) (k : A -> Gen S B) (s : S) :
  (lift (inr a) ≫= k) s = k a s.
Proof. apply bind_pure. reflexivity. Qed.

Lemma bind_lift_err {A B} (e : exn) (k : A -> Gen S B) (s : S) :
  (lift (inl e) ≫= k) s = mkOutcome s [] (inl e).
Proof. apply bind_raise. reflexivity. Qed.

Lemma bind_lift_eq {A B} (r : exn + A) (a : A) (k : A -> Gen S B) (s : S) :
  r = inr a -> (lift r ≫= k) s = k a s.
Proof. intros ->. apply bind_lift_ok. Qed.

Context `{HasData S}.

Lemma data_getitem_ok (ii : string) (d : Dep) (s : S) :
  data_of s !! ii = Some d ->
  data_getitem ii s = mkOutcome s [] (inr d).
Proof.
  intros Hd. unfold data_getitem.
  rewrite (bind_pure _ _ s (data_of s)) by reflexivity.
  unfold dict_getitem. rewrite Hd. reflexivity.
Qed.

Lemma data_getitem_missing (ii : string) (s : S) :
  data_of s !! ii = None ->
  data_getitem ii s = mkOutcome s [] (inl (KeyError (KStr ii))).
Proof.
  intros Hd. unfold data_getitem.
  rewrite (bind_pure _ _ s (data_of s)) by reflexivity.
  unfold dict_getitem. rewrite Hd. reflexivity.
Qed.

(** The comprehension over [requires] succeeds when every name resolves. *)
Lemma comprehension_data_ok (l : list string) (ds : list Dep) (s : S) :
  Forall2 (fun ii d => data_of s !! ii = Some d) l ds ->
  comprehension data_getitem l s = mkOutcome s [] (inr ds).
Proof.
  induction 1 as [|ii d l ds Hd _ IH]; [reflexivity|].
  simpl. rewrite (bind_pure _ _ s d) by (apply data_getitem_ok, Hd).
  rewrite (bind_pure _ _ s ds) by exact IH. reflexivity.
Qed.

(** It stops with [KeyError] at the first name that does not. *)
Lemma comprehension_data_missing (l : list string) (s : S) :
  (exists ii, ii ∈ l /\ data_of s !! ii = None) ->
  exists ii, ii ∈ l /\ data_of s !! ii = None /\
    comprehension data_getitem l s = mkOutcome s [] (inl (KeyError (KStr ii))).
Proof.
  induction l as [|x l IH]; intros (ii & Hin & Hnone).
  - inversion Hin.
  - simpl. destruct (data_of s !! x) as [d|] eqn:Hx.
    + assert (Hl : exists ii, ii ∈ l /\ data_of s !! ii = None).
      { exists ii. split; [|exact Hnone].
        apply elem_of_cons in Hin as [->|Hin]; [congruence|exact Hin]. }
      destruct (IH Hl) as (jj & Hjin & Hjnone & Hrun).
      exists jj. split; [right; exact Hjin|]. split; [exact Hjnone|].
      rewrite (bind_pure _ _ s d) by (apply data_getitem_ok, Hx).
      apply bind_raise. exact Hrun.
    + exists x. split; [left|]. split; [exact Hx|].
      apply bind_raise. apply data_getitem_missing, Hx.
Qed.

End Running.

Lemma problem_variable_ok (var_name : string) (var : FieldVariable) (s : Reach) :
  variables (the_problem s) !! var_name = Some var ->
  problem_variable var_name s = mkOutcome s [] (inr var).
Proof.
  intros Hv. unfold problem_variable.
  rewrite (bind_pure _ _ s (the_problem s)) by reflexivity.
  unfold dict_getitem. rewrite Hv. reflexivity.
Qed.

Lemma problem_variable_missing (var_name : string) (s : Reach) :
  variables (the_problem s) !! var_name = None ->
  problem_variable var_name s = mkOutcome s [] (inl (KeyError (KStr var_name))).
Proof.
  intros Hv. unfold problem_variable.
  rewrite (bind_pure _ _ s (the_problem s)) by reflexivity.
  unfold dict_getitem. rewrite Hv. reflexivity.
Qed.

(** ** Generators that only read *)

Section Shapes.
Context {S : Type}.

Lemma reads_ret {A} (a : A) : reads (mret a : Gen S A).
Proof. intros s. split; reflexivity. Qed.

Lemma reads_raise {A} (e : exn) : reads (raise e : Gen S A).
Proof. intros s. split; reflexivity. Qed.

Lemma reads_lift {A} (r : exn + A) : reads (lift r : Gen S A).
Proof. destruct r; [apply reads_raise | apply reads_ret]. Qed.

Lemma reads_gets {A} (f : S -> A) : reads (gets f).
Proof. intros s. split; reflexivity. Qed.

Lemma reads_bind {A B} (m : Gen S A) (k : A -> Gen S B) :
  reads m -> (forall a, reads (k a)) -> reads (m ≫= k).
Proof.
  intros Hm Hk s. rewrite bind_run.
  destruct (Hm s) as [Hf Hy].
  destruct (status (m s)) as [e|a]; simpl.
  - split; assumption.
  - rewrite Hf, Hy. destruct (Hk a s) as [Hf' Hy'].
    split; [exact Hf' | rewrite Hy'; reflexivity].
Qed.

Lemma reads_comprehension {A B} (f : A -> Gen S B) (l : list A) :
  (forall x, reads (f x)) -> reads (comprehension f l).
Proof.
  intros Hf. induction l as [|x l IH]; simpl.
  - apply reads_ret.
  - apply reads_bind; [apply Hf|]. intros y.
    apply reads_bind; [exact IH|]. intros ys. apply reads_ret.
Qed.

Lemma reads_data_getitem `{HasData S} (ii : string) :
  reads (data_getitem ii : Gen S Dep).
Proof.
  unfold data_getitem. apply reads_bind; [apply reads_gets|].
  intros d. apply reads_lift.
Qed.

Lemma yields_once_yield (r : record) : yields_once (yield r : Gen S unit).
Proof. intros s. split; [reflexivity|]. simpl. exists r. reflexivity. Qed.

Lemma yields_once_bind {A} (m : Gen S A) (k : A -> Gen S unit) :
  reads m -> (forall a, yields_once (k a)) -> yields_once (m ≫= k).
Proof.
  intros Hm Hk s. rewrite bind_run.
  destruct (Hm s) as [Hf Hy].
  destruct (status (m s)) as [e|a]; simpl.
  - split; assumption.
  - rewrite Hf, Hy. exact (Hk a s).
Qed.

End Shapes.

Lemma reads_problem_variable (var_name : string) :
  reads (problem_variable var_name).
Proof.
  unfold problem_variable. apply reads_bind; [apply reads_gets|].
  intros p. apply reads_lift.
Qed.

Create HintDb gen_reads.
#[global] Hint Resolve reads_lift reads_data_getitem reads_problem_variable
  reads_comprehension : gen_reads.

(** Peel one read off the front of a generator. *)
Ltac peel :=
  apply yields_once_bind; [solve [auto with gen_reads] | intros ?].

Lemma CorrectorsElasticRS_body_yields_once self ir ic :
  yields_once (CorrectorsElasticRS.body self ir ic).
Proof.
  unfold CorrectorsElasticRS.body.
  repeat peel. apply yields_once_yield.
Qed.

Lemma ElasticCoef_body_yields_once self ir ic mode :
  yields_once (ElasticCoef.body self ir ic mode).
Proof.
  unfold ElasticCoef.body.
  peel. apply yields_once_bind; [auto with gen_reads | intros [pis corrs]].
  repeat peel. apply yields_once_yield.
Qed.

Lemma ElasticBiotCoef_body_yields_once self ir ic mode :
  yields_once (ElasticBiotCoef.body self ir ic mode).
Proof.
  unfold ElasticBiotCoef.body. destruct (decide (mode = "col")).
  - repeat peel. apply yields_once_yield.
  - repeat peel. apply yields_once_yield.
Qed.

(** ** Subscripts on lists and on [mode2var] *)

Lemma list_getitem_lookup {A} (l : list A) (n : nat) (x : A) :
  l !! n = Some x -> list_getitem l (Z.of_nat n) = inr x.
Proof.
  intros Hx. pose proof (lookup_lt_Some _ _ _ Hx) as Hn.
  unfold list_getitem.
  destruct (Z.ltb_spec (Z.of_nat n) 0) as [Hneg|_]; [lia|].
  destruct (Z.leb_spec 0 (Z.of_nat n)) as [_|?]; [|lia].
  destruct (Z.ltb_spec (Z.of_nat n) (Z.of_nat (length l))) as [_|?]; [|lia].
  simpl. rewrite Nat2Z.id, Hx. reflexivity.
Qed.

Lemma list_getitem_short {A} (l : list A) (n : nat) :
  (length l <= n)%nat -> list_getitem l (Z.of_nat n) = inl IndexError.
Proof.
  intros Hn. unfold list_getitem.
  destruct (Z.ltb_spec (Z.of_nat n) 0) as [Hneg|_]; [lia|].
  destruct (Z.ltb_spec (Z.of_nat n) (Z.of_nat (length l))) as [?|_]; [lia|].
  rewrite andb_false_r. reflexivity.
Qed.

Lemma list_getitem_last {A} (l : list A) (x : A) :
  last l = Some x -> list_getitem l (-1) = inr x.
Proof.
  intros Hx. rewrite last_lookup in Hx.
  pose proof (lookup_lt_Some _ _ _ Hx) as Hn.
  unfold list_getitem. change (-1 <? 0) with true. cbv iota.
  assert (Hin : (0 <=? -1 + Z.of_nat (length l)) &&
                (-1 + Z.of_nat (length l) <? Z.of_nat (length l)) = true).
  { apply andb_true_intro. split; [apply Z.leb_le | apply Z.ltb_lt]; lia. }
  rewrite Hin.
  replace (Z.to_nat (-1 + Z.of_nat (length l))) with (pred (length l)) by lia.
  rewrite Hx. reflexivity.
Qed.

Lemma mode2var_other (mode : string) :
  mode <> "row" -> mode <> "col" -> ElasticCoef.mode2var !! mode = None.
Proof.
  intros Hrow Hcol. unfold ElasticCoef.mode2var.
  rewrite lookup_insert_ne by congruence.
  apply lookup_singleton_ne. congruence.
Qed.

Lemma mode2var_row_col (mode : string) :
  mode = "row" \/ mode = "col" ->
  ElasticCoef.mode2var !! mode =
  Some (Z.of_nat (if decide (mode = "row") then 0 else 1)).
Proof. intros [-> | ->]; reflexivity. Qed.

(** ** The path of each generator when every lookup resolves *)

Lemma ElasticCoef_run self problem ir ic data mode p c pis corrs v var sl st pv :
  self_requires self = [p; c] ->
  data !! p = Some (Pis pis) ->
  data !! c = Some (Corr corrs) ->
  mode = "row" \/ mode = "col" ->
  self_variables self !! (if decide (mode = "row") then 0 else 1)%nat = Some v ->
  variables problem !! v = Some var ->
  indx (di corrs) !! primary_var_name var = Some sl ->
  states corrs !! (ir, ic) = Some st ->
  pis !! (ir, ic) = Some pv ->
  ElasticCoef.get_variables self problem ir ic data mode =
  (pi ← lift (nm.add pv (slice_getitem st sl)); yield (v, pi))
    {| the_problem := problem; the_data := data |}.
Proof.
  intros Hr Hp Hc Hm Hv Hvar Hsl Hst Hpv.
  unfold ElasticCoef.get_variables, ElasticCoef.body.
  set (s := {| the_problem := problem; the_data := data |}).
  rewrite (bind_pure _ _ s [Pis pis; Corr corrs]).
  2:{ apply comprehension_data_ok. rewrite Hr. repeat constructor; assumption. }
  rewrite (bind_lift_eq _ (Pis pis, Corr corrs)) by reflexivity.
  rewrite (bind_lift_eq _ (Z.of_nat (if decide (mode = "row") then 0 else 1))).
  2:{ unfold dict_getitem. rewrite mode2var_row_col by exact Hm. reflexivity. }
  rewrite (bind_lift_eq _ v) by (apply list_getitem_lookup, Hv).
  rewrite (bind_pure _ _ s var) by (apply problem_variable_ok, Hvar).
  rewrite (bind_lift_eq _ corrs) by reflexivity.
  rewrite (bind_lift_eq _ sl) by (unfold dict_getitem; rewrite Hsl; reflexivity).
  rewrite (bind_lift_eq _ st) by (unfold pair_getitem; rewrite Hst; reflexivity).
  rewrite (bind_lift_eq _ pv)
    by (simpl; unfold pair_getitem; rewrite Hpv; reflexivity).
  reflexivity.
Qed.

Lemma nm_add_same_length (a b : ndarray) :
  length a = length b -> nm.add a b = inr (zip_with PrimFloat.add a b).
Proof. intros Hl. unfold nm.add. rewrite decide_True by exact Hl. reflexivity. Qed.

Lemma ElasticBiotCoef_run_col self problem ir ic data v one_var :
  self_variables self !! 0%nat = Some v ->
  variables problem !! v = Some one_var ->
  ElasticBiotCoef.get_variables self problem ir ic data "col" =
  mkOutcome {| the_problem := problem; the_data := data |}
    [(v, replicate (n_nod (field one_var)) 1%float)] (inr tt).
Proof.
  intros Hv Hvar.
  unfold ElasticBiotCoef.get_variables, ElasticBiotCoef.body.
  set (s := {| the_problem := problem; the_data := data |}).
  rewrite decide_True by reflexivity.
  rewrite (bind_lift_eq _ v) by (apply (list_getitem_lookup _ 0%nat), Hv).
  rewrite (bind_pure _ _ s one_var) by (apply problem_variable_ok, Hvar).
  reflexivity.
Qed.

Lemma ElasticBiotCoef_run_else self problem ir ic data mode
    v var corrs ds sl st :
  mode <> "col" ->
  self_variables self !! 1%nat = Some v ->
  variables problem !! v = Some var ->
  Forall2 (fun ii d => data !! ii = Some d) (self_requires self)
    (Corr corrs :: ds) ->
  indx (di corrs) !! primary_var_name var = Some sl ->
  states corrs !! (ir, ic) = Some st ->
  ElasticBiotCoef.get_variables self problem ir ic data mode =
  mkOutcome {| the_problem := problem; the_data := data |}
    [(v, slice_getitem st sl)] (inr tt).
Proof.
  intros Hmode Hv Hvar Hreq Hsl Hst.
  unfold ElasticBiotCoef.get_variables, ElasticBiotCoef.body.
  set (s := {| the_problem := problem; the_data := data |}).
  rewrite decide_False by exact Hmode.
  rewrite (bind_lift_eq _ v) by (apply (list_getitem_lookup _ 1%nat), Hv).
  rewrite (bind_pure _ _ s var) by (apply problem_variable_ok, Hvar).
  rewrite (bind_pure _ _ s (Corr corrs :: ds))
    by (apply comprehension_data_ok, Hreq).
  rewrite (bind_lift_eq _ (Corr corrs)) by reflexivity.
  rewrite (bind_lift_eq _ corrs) by reflexivity.
  rewrite (bind_lift_eq _ sl) by (unfold dict_getitem; rewrite Hsl; reflexivity).
  rewrite (bind_lift_eq _ st) by (unfold pair_getitem; rewrite Hst; reflexivity).
  reflexivity.
Qed.

Lemma ElasticBiotCoef_mode_else self problem ir ic data mode :
  mode <> "col" ->
  ElasticBiotCoef.get_variables self problem ir ic data mode =
  ElasticBiotCoef.get_variables self problem ir ic data "row".
Proof.
  intros Hmode. unfold ElasticBiotCoef.get_variables, ElasticBiotCoef.body.
  rewrite decide_False by exact Hmode.
  rewrite decide_False by discriminate. reflexivity.
Qed.

(** ** Concrete calls *)

Example slice_from_the_end :
  slice_getitem [1; 2; 3; 4]%float (Slice (-3) 10) = [2; 3; 4]%float.
Proof. reflexivity. Qed.

Example add_broadcasts :
  nm.add [1]%float [1; 2; 3]%float = inr [2; 3; 4]%float /\
  nm.add [1; 2]%float [1; 2; 3]%float = inl ValueError.
Proof. split; reflexivity. Qed.

(** The swapped dependencies of the elastic tensor fail on [corrs.di]. *)
Example ElasticCoef_swapped_requires :
  ElasticCoef.get_variables
    {| self_requires := ["corrs_rs"; "pis"]; self_variables := ["u"; "v"] |}
    Scenario.problem 0 1 Scenario.data "row"
  = mkOutcome {| the_problem := Scenario.problem; the_data := Scenario.data |}
      [] (inl AttributeError).
Proof. reflexivity. Qed.

(** An index pair outside the corrector's range. *)
Example ElasticCoef_unknown_pair :
  status (ElasticCoef.get_variables Scenario.elastic Scenario.problem 1 1
            Scenario.data "row")
  = inl (KeyError (KPair 1 1)).
Proof. reflexivity. Qed.

(** A store is not a read: [reads] does separate the two. *)
Example store_is_not_a_read :
  ~ reads (modify (delete "pis") : Gen (gmap string Dep) unit).
Proof.
  intros Hreads. destruct (Hreads Scenario.data) as [Hfinal _].
  simpl in Hfinal.
  apply (f_equal (fun d : gmap string Dep => d !! "pis")) in Hfinal.
  rewrite lookup_delete_eq in Hfinal. discriminate.
Qed.

(** ** The elastic tensor: perturbation field plus corrector *)

(** C1. For every index pair [(ir, ic)] and mode ['row'] or ['col'], when
    [data] holds the perturbation field and the corrector under the two
    names of [requires], [ElasticCoef.get_variables] yields the single pair
    [(v, pis[ir,ic] + corrs.states[ir,ic][corrs.di.indx[c]])], where [v] is
    entry 0 of [variables] for ['row'] and entry 1 for ['col'], and [c] is
    the primary-variable name the problem context gives for [v]; when the
    two arrays have the same length the sum is the elementwise one. *)
Theorem ElasticCoef_superposition
    self problem ir ic data mode p c pis corrs v var sl st pv :
  self_requires self = [p; c] ->
  data !! p = Some (Pis pis) ->
  data !! c = Some (Corr corrs) ->
  mode = "row" \/ mode = "col" ->
  self_variables self !! (if decide (mode = "row") then 0 else 1)%nat
    = Some v ->
  variables problem !! v = Some var ->
  indx (di corrs) !! primary_var_name var = Some sl ->
  states corrs !! (ir, ic) = Some st ->
  pis !! (ir, ic) = Some pv ->
  let omega := slice_getitem st sl in
  let o := ElasticCoef.get_variables self problem ir ic data mode in
  (forall pi, nm.add pv omega = inr pi ->
     yielded o = [(v, pi)] /\ status o = inr tt) /\
  (length pv = length omega ->
     yielded o = [(v, zip_with PrimFloat.add pv omega)] /\ status o = inr tt).
Proof.
  intros Hr Hp Hc Hm Hv Hvar Hsl Hst Hpv omega o.
  assert (Ho : o = (pi ← lift (nm.add pv omega); yield (v, pi))
                     {| the_problem := problem; the_data := data |}).
  { subst o omega. eapply ElasticCoef_run; eassumption. }
  assert (Hsum : forall pi, nm.add pv omega = inr pi ->
            yielded o = [(v, pi)] /\ status o = inr tt).
  { intros pi Hadd. rewrite Ho, (bind_lift_eq _ pi) by exact Hadd.
    split; reflexivity. }
  split; [exact Hsum|].
  intros Hlen. apply Hsum, nm_add_same_length, Hlen.
Qed.

Lemma ElasticCoef_superposition_witness :
  yielded (ElasticCoef.get_variables Scenario.elastic Scenario.problem 0 1
             Scenario.data "col")
  = [("v", [1.1; 2.1; 3.1]%float)].
Proof.
  pose proof (ElasticCoef_superposition Scenario.elastic Scenario.problem 0 1
    Scenario.data "col" "pis" "corrs_rs" Scenario.pis Scenario.corrs "v"
    {| primary_var_name := "u"; field := {| n_nod := 3 |} |}
    (Slice 0 3) [1; 2; 3]%float [0.1; 0.1; 0.1]%float
    eq_refl eq_refl eq_refl (or_intror eq_refl) eq_refl eq_refl eq_refl
    eq_refl eq_refl) as [_ Hsame].
  exact (proj1 (Hsame eq_refl)).
Defined.

(** C2, as stated, fails: the scenario fixes the primary name of the
    variable at index 0, not its own name, and the record carries the
    variable name.  With [variables = ["Pi1", "Pi2"]], both of primary name
    ["u"], the record is [("Pi1", [1.1, 2.1, 3.1])]. *)
Lemma ElasticCoef_scenario_variable_name :
  let self := {| self_requires := ["pis"; "corrs_rs"];
                 self_variables := ["Pi1"; "Pi2"] |} in
  let problem :=
    {| variables :=
         {[ "Pi1" := {| primary_var_name := "u"; field := {| n_nod := 3 |} |};
            "Pi2" := {| primary_var_name := "u"; field := {| n_nod := 3 |} |}
         ]} |} in
  let o := ElasticCoef.get_variables self problem 0 1 Scenario.data "row" in
  indx (di Scenario.corrs) = {[ "u" := Slice 0 3 ]} /\
  states Scenario.corrs !! (0, 1) = Some [1; 2; 3]%float /\
  Scenario.pis !! (0, 1) = Some [0.1; 0.1; 0.1]%float /\
  (exists v var, self_variables self !! 0%nat = Some v /\
     variables problem !! v = Some var /\ primary_var_name var = "u") /\
  yielded o = [("Pi1", [1.1; 2.1; 3.1]%float)] /\
  yielded o <> [("u", [1.1; 2.1; 3.1]%float)].
Proof.
  split; [reflexivity|]. split; [reflexivity|]. split; [reflexivity|].
  split.
  { exists "Pi1", {| primary_var_name := "u"; field := {| n_nod := 3 |} |}.
    split; [reflexivity|]. split; reflexivity. }
  split; [reflexivity | discriminate].
Qed.

(** C2, amended. With [index_map = {"u": slice(0,3)}],
    [states[(0,1)] = [1,2,3]], [pis[(0,1)] = [0.1,0.1,0.1]], mode ['row']
    and the variable [v] at index 0 of [variables] having primary name
    ["u"], [ElasticCoef.get_variables] yields exactly
    [(v, [1.1, 2.1, 3.1])]: the record is named after the variable, and is
    [("u", ...)] when the variable itself is called ["u"]. *)
Theorem ElasticCoef_scenario_record self problem data p c pis corrs v var :
  self_requires self = [p; c] ->
  data !! p = Some (Pis pis) ->
  data !! c = Some (Corr corrs) ->
  indx (di corrs) = {[ "u" := Slice 0 3 ]} ->
  states corrs !! (0, 1) = Some [1; 2; 3]%float ->
  pis !! (0, 1) = Some [0.1; 0.1; 0.1]%float ->
  self_variables self !! 0%nat = Some v ->
  variables problem !! v = Some var ->
  primary_var_name var = "u" ->
  let o := ElasticCoef.get_variables self problem 0 1 data "row" in
  yielded o = [(v, [1.1; 2.1; 3.1]%float)] /\ status o = inr tt.
Proof.
  intros Hr Hp Hc Hindx Hst Hpv Hv Hvar Hprim o. subst o.
  rewrite (ElasticCoef_run self problem 0 1 data "row" p c pis corrs v var
             (Slice 0 3) [1; 2; 3]%float [0.1; 0.1; 0.1]%float);
    try assumption.
  - split; reflexivity.
  - left; reflexivity.
  - rewrite Hindx, Hprim. reflexivity.
Qed.

Lemma ElasticCoef_scenario_record_witness :
  yielded (ElasticCoef.get_variables Scenario.elastic Scenario.problem 0 1
             Scenario.data "row")
  = [("u", [1.1; 2.1; 3.1]%float)].
Proof.
  exact (proj1 (ElasticCoef_scenario_record Scenario.elastic Scenario.problem
    Scenario.data "pis" "corrs_rs" Scenario.pis Scenario.corrs "u"
    {| primary_var_name := "u"; field := {| n_nod := 3 |} |}
    eq_refl eq_refl eq_refl eq_refl eq_refl eq_refl eq_refl eq_refl eq_refl)).
Defined.

(** ** The Biot coefficient *)

(** C3. For every index pair, [ElasticBiotCoef.get_variables] with mode
    ['col'] yields exactly one record: the first declared variable with a
    field of [n_nod] ones.  The record is the same for every index pair and
    every [data] mapping, the empty one included: neither the dependency
    data nor a corrector is looked at. *)
Theorem ElasticBiotCoef_col_ones self problem v one_var :
  self_variables self !! 0%nat = Some v ->
  variables problem !! v = Some one_var ->
  forall ir ic data,
    let o := ElasticBiotCoef.get_variables self problem ir ic data "col" in
    yielded o = [(v, replicate (n_nod (field one_var)) 1%float)] /\
    status o = inr tt /\
    forall ir' ic' data',
      yielded (ElasticBiotCoef.get_variables self problem ir' ic' data' "col")
      = yielded o.
Proof.
  intros Hv Hvar ir ic data o. subst o.
  rewrite (ElasticBiotCoef_run_col _ _ _ _ _ v one_var) by assumption.
  split; [reflexivity|]. split; [reflexivity|].
  intros ir' ic' data'.
  rewrite (ElasticBiotCoef_run_col _ _ _ _ _ v one_var) by assumption.
  reflexivity.
Qed.

Lemma ElasticBiotCoef_col_ones_witness :
  yielded (ElasticBiotCoef.get_variables Scenario.biot Scenario.problem 1 0
             ∅ "col")
  = [("one", [1; 1; 1; 1]%float)].
Proof.
  exact (proj1 (ElasticBiotCoef_col_ones Scenario.biot Scenario.problem "one"
    {| primary_var_name := "p"; field := {| n_nod := 4 |} |}
    eq_refl eq_refl 1 0 ∅)).
Defined.

(** C4. For every index pair, [ElasticBiotCoef.get_variables] with mode
    ['row'] yields exactly one record: the second declared variable with the
    sub-vector [corrs.states[ir,ic][corrs.di.indx[c]]] of the single
    corrector dependency, [c] being that variable's primary-variable name.
    No perturbation-field value is added. *)
Theorem ElasticBiotCoef_row_corrector
    self problem ir ic data c corrs v var sl st :
  self_variables self !! 1%nat = Some v ->
  variables problem !! v = Some var ->
  self_requires self = [c] ->
  data !! c = Some (Corr corrs) ->
  indx (di corrs) !! primary_var_name var = Some sl ->
  states corrs !! (ir, ic) = Some st ->
  let o := ElasticBiotCoef.get_variables self problem ir ic data "row" in
  yielded o = [(v, slice_getitem st sl)] /\ status o = inr tt.
Proof.
  intros Hv Hvar Hr Hc Hsl Hst o. subst o.
  rewrite (ElasticBiotCoef_run_else _ _ _ _ _ "row" v var corrs [] sl st);
    try assumption.
  - split; reflexivity.
  - discriminate.
  - rewrite Hr. repeat constructor. exact Hc.
Qed.

Lemma ElasticBiotCoef_row_corrector_witness :
  yielded (ElasticBiotCoef.get_variables Scenario.biot Scenario.problem 0 1
             Scenario.data "row")
  = [("u", [1; 2; 3]%float)].
Proof.
  exact (proj1 (ElasticBiotCoef_row_corrector Scenario.biot Scenario.problem
    0 1 Scenario.data "corrs_rs" Scenario.corrs "u"
    {| primary_var_name := "u"; field := {| n_nod := 3 |} |}
    (Slice 0 3) [1; 2; 3]%float
    eq_refl eq_refl eq_refl eq_refl eq_refl eq_refl)).
Defined.

(** ** A dependency missing from [data] *)

(** C5, as stated, fails: with mode ['col'] the Biot coefficient never reads
    [data], so a missing dependency goes unnoticed and the record of ones is
    yielded. *)
Lemma ElasticBiotCoef_col_missing_dependency :
  let o := ElasticBiotCoef.get_variables Scenario.biot Scenario.problem 0 1
             ∅ "col" in
  "corrs_rs" ∈ self_requires Scenario.biot /\
  (∅ : gmap string Dep) !! "corrs_rs" = None /\
  yielded o = [("one", [1; 1; 1; 1]%float)] /\
  status o = inr tt.
Proof.
  split; [left|]. split; [apply lookup_empty|]. split; reflexivity.
Qed.

(** C5, amended. If [data] misses a name of [requires], then
    [ElasticCoef.get_variables] (any mode) yields no record and raises
    [KeyError] on a missing name, and [ElasticBiotCoef.get_variables] with a
    mode other than ['col'] yields no record and raises; its exception is
    the [KeyError] on a missing name whenever the second declared variable
    resolves in the problem context. *)
Theorem missing_dependency_raises self problem ir ic data mode :
  (exists ii, ii ∈ self_requires self /\ data !! ii = None) ->
  (let o := ElasticCoef.get_variables self problem ir ic data mode in
   yielded o = [] /\
   exists ii, ii ∈ self_requires self /\ data !! ii = None /\
     status o = inl (KeyError (KStr ii))) /\
  (mode <> "col" ->
   let o := ElasticBiotCoef.get_variables self problem ir ic data mode in
   yielded o = [] /\
   exists e, status o = inl e /\
     forall v, self_variables self !! 1%nat = Some v ->
       is_Some (variables problem !! v) ->
       exists ii, ii ∈ self_requires self /\ data !! ii = None /\
         e = KeyError (KStr ii)).
Proof.
  intros Hmiss.
  set (s := {| the_problem := problem; the_data := data |}).
  destruct (@comprehension_data_missing Reach Reach_HasData
              (self_requires self) s Hmiss)
    as (jj & Hin & Hnone & Hrun).
  split.
  - unfold ElasticCoef.get_variables, ElasticCoef.body. fold s.
    rewrite (bind_raise _ _ _ _ _ _ Hrun).
    split; [reflexivity|]. exists jj. auto.
  - intros Hmode.
    unfold ElasticBiotCoef.get_variables, ElasticBiotCoef.body. fold s.
    rewrite decide_False by exact Hmode.
    destruct (list_getitem (self_variables self) 1) as [e|v'] eqn:Hget.
    + rewrite bind_lift_err. split; [reflexivity|].
      exists e. split; [reflexivity|]. intros v Hv _.
      pose proof (list_getitem_lookup _ 1%nat v Hv : list_getitem _ 1 = _).
      congruence.
    + rewrite bind_lift_ok.
      destruct (variables problem !! v') as [var|] eqn:Hvar.
      * rewrite (bind_pure _ _ s var) by (apply problem_variable_ok, Hvar).
        rewrite (bind_raise _ _ _ _ _ _ Hrun).
        split; [reflexivity|]. exists (KeyError (KStr jj)).
        split; [reflexivity|]. intros _ _ _. exists jj. auto.
      * rewrite (bind_raise _ _ _ _ _ _ (problem_variable_missing v' s Hvar)).
        split; [reflexivity|]. exists (KeyError (KStr v')).
        split; [reflexivity|]. intros v Hv [var Hsome].
        pose proof (list_getitem_lookup _ 1%nat v Hv : list_getitem _ 1 = _).
        congruence.
Qed.

Lemma missing_dependency_raises_witness :
  yielded (ElasticCoef.get_variables Scenario.elastic Scenario.problem 0 1
             {[ "pis" := Pis Scenario.pis ]} "row")
  = [].
Proof.
  exact (proj1 (proj1 (missing_dependency_raises Scenario.elastic
    Scenario.problem 0 1 {[ "pis" := Pis Scenario.pis ]} "row"
    (ex_intro _ "corrs_rs"
       (conj (list_elem_of_further _ _ _ (list_elem_of_here _ _))
             eq_refl))))).
Defined.

(** ** A mode that is neither ['row'] nor ['col'] *)

(** C6, as stated, fails: the Biot coefficient tests [mode == 'col'] only,
    so mode ['diag'] falls into its [else] branch and a record is yielded. *)
Lemma ElasticBiotCoef_unknown_mode_yields :
  let o := ElasticBiotCoef.get_variables Scenario.biot Scenario.problem 0 1
             Scenario.data "diag" in
  "diag" <> "row" /\ "diag" <> "col" /\
  yielded o = [("u", [1; 2; 3]%float)] /\
  status o = inr tt.
Proof.
  split; [discriminate|]. split; [discriminate|]. split; reflexivity.
Qed.

(** C6, amended. [ElasticCoef.get_variables] called with a mode that is
    neither ['row'] nor ['col'] yields no record and raises; when both names
    of its [requires] resolve, the exception is the [KeyError] of
    [mode2var] on the mode. *)
Theorem ElasticCoef_unknown_mode_raises self problem ir ic data mode :
  mode <> "row" -> mode <> "col" ->
  let o := ElasticCoef.get_variables self problem ir ic data mode in
  yielded o = [] /\
  (exists e, status o = inl e) /\
  (forall a b, self_requires self = [a; b] ->
     is_Some (data !! a) -> is_Some (data !! b) ->
     status o = inl (KeyError (KStr mode))).
Proof.
  intros Hrow Hcol.
  set (s := {| the_problem := problem; the_data := data |}).
  assert (Hmode : forall k,
            ((i ← lift (dict_getitem ElasticCoef.mode2var mode); k i)
               : Gen Reach unit) s
            = mkOutcome s [] (inl (KeyError (KStr mode)))).
  { intros k. unfold dict_getitem.
    rewrite mode2var_other by assumption. apply bind_lift_err. }
  unfold ElasticCoef.get_variables, ElasticCoef.body. fold s.
  destruct (comprehension data_getitem (self_requires self) s)
    as [s' rs [e|deps]] eqn:Hcomp.
  - pose proof (reads_comprehension data_getitem (self_requires self)
                  reads_data_getitem s) as [Hf Hy].
    rewrite Hcomp in Hf, Hy. simpl in Hf, Hy. subst s' rs.
    rewrite (bind_raise _ _ _ _ _ _ Hcomp).
    split; [reflexivity|]. split; [eexists; reflexivity|].
    intros a b Hr [da Ha] [db Hb].
    rewrite (comprehension_data_ok (self_requires self) [da; db] s) in Hcomp
      by (rewrite Hr; repeat constructor; assumption).
    discriminate.
  - pose proof (reads_comprehension data_getitem (self_requires self)
                  reads_data_getitem s) as [Hf Hy].
    rewrite Hcomp in Hf, Hy. simpl in Hf, Hy. subst s' rs.
    rewrite (bind_pure _ _ s deps) by exact Hcomp.
    destruct (unpack2 deps) as [e|[pis corrs]] eqn:Hun.
    + rewrite bind_lift_err.
      split; [reflexivity|]. split; [eexists; reflexivity|].
      intros a b Hr [da Ha] [db Hb].
      rewrite (comprehension_data_ok (self_requires self) [da; db] s) in Hcomp
        by (rewrite Hr; repeat constructor; assumption).
      injection Hcomp as <-. discriminate.
    + rewrite bind_lift_ok. rewrite Hmode.
      split; [reflexivity|]. split; [eexists; reflexivity|].
      intros; reflexivity.
Qed.

Lemma ElasticCoef_unknown_mode_raises_witness :
  status (ElasticCoef.get_variables Scenario.elastic Scenario.problem 0 1
            Scenario.data "diag")
  = inl (KeyError (KStr "diag")).
Proof.
  refine (proj2 (proj2 (ElasticCoef_unknown_mode_raises Scenario.elastic
    Scenario.problem 0 1 Scenario.data "diag" _ _)) "pis" "corrs_rs" eq_refl
    (ex_intro _ _ eq_refl) (ex_intro _ _ eq_refl)); discriminate.
Defined.

(** ** One record per valid call *)

(** The calls that have a record of the mode are the valid calls. *)
Lemma valid_call_mode_record k self problem ir ic data mode :
  valid_call k self problem ir ic data mode <->
  exists r, mode_record k self problem ir ic data mode r.
Proof.
  split.
  - intros Hvalid. destruct Hvalid; eexists; econstructor; eassumption.
  - intros [r Hrec]. destruct Hrec; econstructor; eassumption.
Qed.

(** C7, as stated, fails: a mode ['row'] with both [requires] names in
    [data], and every other lookup resolved as well, is not enough.  With a
    perturbation-field value of two entries against a corrector sub-vector
    of three, the addition raises and no record is produced. *)
Lemma required_data_without_record :
  let data : gmap string Dep :=
    {[ "pis" := Pis {[ (0, 1) := [0.1; 0.1]%float ]};
       "corrs_rs" := Corr Scenario.corrs ]} in
  let o := ElasticCoef.get_variables Scenario.elastic Scenario.problem 0 1
             data "row" in
  Forall (fun ii => is_Some (data !! ii)) (self_requires Scenario.elastic) /\
  yielded o = [] /\
  status o = inl ValueError.
Proof.
  split.
  - repeat constructor; eexists; reflexivity.
  - split; reflexivity.
Qed.

(** C7, amended. For every evaluator of the family and every call of mode
    ['row'] or ['col'] in which every lookup of the requested branch
    resolves and, for the elastic tensor, the two arrays can be added,
    draining [get_variables] ends normally after exactly one record, the
    one of the requested mode: [(variables[0 or 1], pis[ir,ic] + omega)] for
    [ElasticCoef], [(variables[0], ones)] for [ElasticBiotCoef] in mode
    ['col'], [(variables[1], omega)] in mode ['row']. *)
Theorem get_variables_yields_the_mode_record
    k self problem ir ic data mode (r : record) :
  mode_record k self problem ir ic data mode r ->
  get_variables_of k self problem ir ic data mode =
  mkOutcome {| the_problem := problem; the_data := data |} [r] (inr tt).
Proof.
  intros Hrec.
  destruct Hrec as
    [ self problem ir ic data mode p c pis corrs v var sl st pv pi
        Hr Hp Hc Hm Hv Hvar Hsl Hst Hpv Hadd
    | self problem ir ic data v one_var Hv Hvar
    | self problem ir ic data v var corrs ds sl st Hv Hvar Hreq Hsl Hst ];
    simpl.
  - rewrite (ElasticCoef_run self problem ir ic data mode p c pis corrs v var
               sl st pv) by assumption.
    rewrite (bind_lift_eq _ pi) by exact Hadd. reflexivity.
  - eapply ElasticBiotCoef_run_col; eassumption.
  - eapply ElasticBiotCoef_run_else; try eassumption. discriminate.
Qed.

Lemma get_variables_yields_the_mode_record_witness :
  ElasticCoef.get_variables Scenario.elastic Scenario.problem 0 1
    Scenario.data "col" =
  mkOutcome {| the_problem := Scenario.problem; the_data := Scenario.data |}
    [("v", [1.1; 2.1; 3.1]%float)] (inr tt).
Proof.
  exact (get_variables_yields_the_mode_record ElasticCoefK Scenario.elastic
    Scenario.problem 0 1 Scenario.data "col" ("v", [1.1; 2.1; 3.1]%float)
    (mode_record_ElasticCoef Scenario.elastic Scenario.problem 0 1
       Scenario.data "col" "pis" "corrs_rs" Scenario.pis Scenario.corrs "v"
       {| primary_var_name := "u"; field := {| n_nod := 3 |} |}
       (Slice 0 3) [1; 2; 3]%float [0.1; 0.1; 0.1]%float
       [1.1; 2.1; 3.1]%float
       eq_refl eq_refl eq_refl (or_intror eq_refl) eq_refl eq_refl eq_refl
       eq_refl eq_refl eq_refl)).
Defined.

(** ** No side effect *)

(** C8. Every [get_variables] of the module leaves what it can reach as it
    was: after draining, the [data] mapping (with the correctors' [states]
    and [di.indx] and the perturbation fields in it) and the problem
    context's variable table are the ones passed in, and a second call on
    them gives the same records and the same end. *)
Theorem get_variables_no_side_effect self problem ir ic data mode :
  (forall k,
     let o := get_variables_of k self problem ir ic data mode in
     final o = {| the_problem := problem; the_data := data |} /\
     get_variables_of k self (the_problem (final o)) ir ic
       (the_data (final o)) mode = o) /\
  (let o := CorrectorsElasticRS.get_variables self ir ic data in
   final o = data /\
   CorrectorsElasticRS.get_variables self ir ic (final o) = o).
Proof.
  split.
  - intros k o.
    assert (Hf : final o = {| the_problem := problem; the_data := data |}).
    { subst o. destruct k; simpl.
      + apply ElasticCoef_body_yields_once.
      + apply ElasticBiotCoef_body_yields_once. }
    split; [exact Hf|]. rewrite Hf. reflexivity.
  - intros o.
    assert (Hf : final o = data)
      by apply CorrectorsElasticRS_body_yields_once.
    split; [exact Hf|]. rewrite Hf. reflexivity.
Qed.

(** ** The [else] branch of the Biot coefficient *)

(** C9. For every index pair and every mode other than ['col'],
    [ElasticBiotCoef.get_variables] does what it does for ['row']: it takes
    the corrector branch and yields exactly one record, the second declared
    variable with the corrector sub-vector at [(ir, ic)]; an unrecognised
    mode raises nothing. *)
Theorem ElasticBiotCoef_else_branch
    self problem ir ic data mode c corrs v var sl st :
  mode <> "col" ->
  self_variables self !! 1%nat = Some v ->
  variables problem !! v = Some var ->
  self_requires self = [c] ->
  data !! c = Some (Corr corrs) ->
  indx (di corrs) !! primary_var_name var = Some sl ->
  states corrs !! (ir, ic) = Some st ->
  let o := ElasticBiotCoef.get_variables self problem ir ic data mode in
  o = ElasticBiotCoef.get_variables self problem ir ic data "row" /\
  yielded o = [(v, slice_getitem st sl)] /\
  status o = inr tt.
Proof.
  intros Hmode Hv Hvar Hr Hc Hsl Hst o. subst o.
  split; [apply ElasticBiotCoef_mode_else, Hmode|].
  rewrite (ElasticBiotCoef_run_else _ _ _ _ _ mode v var corrs [] sl st);
    try assumption.
  - split; reflexivity.
  - rewrite Hr. repeat constructor. exact Hc.
Qed.

Lemma ElasticBiotCoef_else_branch_witness :
  yielded (ElasticBiotCoef.get_variables Scenario.biot Scenario.problem 0 1
             Scenario.data "")
  = [("u", [1; 2; 3]%float)].
Proof.
  refine (proj1 (proj2 (ElasticBiotCoef_else_branch Scenario.biot
    Scenario.problem 0 1 Scenario.data "" "corrs_rs" Scenario.corrs "u"
    {| primary_var_name := "u"; field := {| n_nod := 3 |} |}
    (Slice 0 3) [1; 2; 3]%float
    _ eq_refl eq_refl eq_refl eq_refl eq_refl eq_refl))).
  discriminate.
Defined.

(** ** The corrector of the elastic problem *)

(** C10. For every index pair, [CorrectorsElasticRS.get_variables], whose
    arguments are [(ir, ic, data)] only, yields exactly one record: the last
    entry of [variables] with [pis[ir,ic]] of the first [requires]
    dependency.  Nothing else of [data] is read. *)
Theorem CorrectorsElasticRS_yields_pis self ir ic data p rest pis v pv :
  self_requires self = p :: rest ->
  data !! p = Some (Pis pis) ->
  last (self_variables self) = Some v ->
  pis !! (ir, ic) = Some pv ->
  CorrectorsElasticRS.get_variables self ir ic data =
  mkOutcome data [(v, pv)] (inr tt).
Proof.
  intros Hr Hp Hv Hpv.
  unfold CorrectorsElasticRS.get_variables, CorrectorsElasticRS.body.
  rewrite (bind_lift_eq _ p) by (rewrite Hr; reflexivity).
  rewrite (bind_pure _ _ data (Pis pis))
    by (apply (data_getitem_ok (H := data_HasData)), Hp).
  rewrite (bind_lift_eq _ v) by (apply list_getitem_last, Hv).
  rewrite (bind_lift_eq _ pv)
    by (simpl; unfold pair_getitem; rewrite Hpv; reflexivity).
  reflexivity.
Qed.

Lemma CorrectorsElasticRS_yields_pis_witness :
  CorrectorsElasticRS.get_variables Scenario.rs 0 1 Scenario.data =
  mkOutcome Scenario.data [("Pi", [0.1; 0.1; 0.1]%float)] (inr tt).
Proof.
  exact (CorrectorsElasticRS_yields_pis Scenario.rs 0 1 Scenario.data
    "pis" [] Scenario.pis "Pi" [0.1; 0.1; 0.1]%float
    eq_refl eq_refl eq_refl eq_refl).
Defined.

(** ** Case analysis on the front of a generator *)

Lemma bind_lift_cases {S A B} (r : exn + A) (k : A -> Gen S B) (s : S) :
  (lift r ≫= k) s =
  match r with
  | inl e => mkOutcome s [] (inl e)
  | inr a => k a s
  end.
Proof. destruct r; [apply bind_lift_err | apply bind_lift_ok]. Qed.

Lemma bind_problem_variable_cases {B} (v : string)
    (k : FieldVariable -> Gen Reach B) (s : Reach) :
  (problem_variable v ≫= k) s =
  match variables (the_problem s) !! v with
  | None => mkOutcome s [] (inl (KeyError (KStr v)))
  | Some var => k var s
  end.
Proof.
  destruct (variables (the_problem s) !! v) as [var|] eqn:Hv.
  - apply bind_pure, problem_variable_ok, Hv.
  - apply bind_raise, problem_variable_missing, Hv.
Qed.

Lemma comprehension_resolve {S} `{HasData S} (l : list string) (s : S) :
  comprehension data_getitem l s = lift (resolve (data_of s) l) s.
Proof.
  induction l as [|ii l IH]; [reflexivity|]. simpl.
  destruct (data_of s !! ii) as [d|] eqn:Hd.
  - rewrite (bind_pure _ _ s d) by (apply data_getitem_ok, Hd).
    rewrite bind_run, IH.
    destruct (resolve (data_of s) l); reflexivity.
  - apply bind_raise, data_getitem_missing, Hd.
Qed.

Lemma bind_comprehension_cases {S B} `{HasData S} (l : list string)
    (k : list Dep -> Gen S B) (s : S) :
  (comprehension data_getitem l ≫= k) s =
  match resolve (data_of s) l with
  | inl e => mkOutcome s [] (inl e)
  | inr ds => k ds s
  end.
Proof.
  rewrite <- bind_lift_cases. rewrite !bind_run, comprehension_resolve.
  reflexivity.
Qed.

Lemma bind_data_getitem_cases {S B} `{HasData S} (ii : string)
    (k : Dep -> Gen S B) (s : S) :
  (data_getitem ii ≫= k) s =
  match data_of s !! ii with
  | None => mkOutcome s [] (inl (KeyError (KStr ii)))
  | Some d => k d s
  end.
Proof.
  destruct (data_of s !! ii) as [d|] eqn:Hd.
  - apply bind_pure, data_getitem_ok, Hd.
  - apply bind_raise, data_getitem_missing, Hd.
Qed.

Lemma resolve_Forall2 (data : gmap string Dep) (l : list string) ds :
  resolve data l = inr ds <->
  Forall2 (fun ii d => data !! ii = Some d) l ds.
Proof.
  revert ds. induction l as [|ii l IH]; intros ds; simpl.
  - split; [intros [= <-]; constructor | intros Hf; inversion Hf; reflexivity].
  - split.
    + destruct (data !! ii) as [d|] eqn:Hd; [|discriminate].
      destruct (resolve data l) as [e|ds'] eqn:Hr; [discriminate|].
      intros [= <-]. constructor; [exact Hd | apply IH; reflexivity].
    + intros Hf. inversion Hf as [|? d ? ds' Hd Hrest]; subst.
      rewrite Hd. apply IH in Hrest. rewrite Hrest. reflexivity.
Qed.

Lemma resolve_ext (data data' : gmap string Dep) (l : list string) :
  (forall ii, ii ∈ l -> data !! ii = data' !! ii) ->
  resolve data l = resolve data' l.
Proof.
  induction l as [|ii l IH]; intros Hagree; [reflexivity|]. simpl.
  rewrite <- (Hagree ii) by left.
  rewrite IH by (intros jj Hjj; apply Hagree; right; exact Hjj).
  reflexivity.
Qed.

Lemma resolve_length (data : gmap string Dep) (l : list string) ds :
  resolve data l = inr ds -> length ds = length l.
Proof.
  intros Hr. apply resolve_Forall2 in Hr.
  symmetry. eapply Forall2_length, Hr.
Qed.

(** Open the bind at the front of the goal and split on what it finds. *)
Ltac front :=
  first [ rewrite bind_lift_cases
        | rewrite bind_problem_variable_cases
        | rewrite bind_comprehension_cases
        | rewrite bind_data_getitem_cases ];
  unfold data_of, Reach_HasData, data_HasData;
  cbn [the_data the_problem].

Lemma list_getitem_nat_inv {A} (l : list A) (n : nat) (x : A) :
  list_getitem l (Z.of_nat n) = inr x -> l !! n = Some x.
Proof.
  unfold list_getitem.
  destruct (Z.ltb_spec (Z.of_nat n) 0) as [?|_]; [lia|].
  destruct ((0 <=? Z.of_nat n) && (Z.of_nat n <? Z.of_nat (length l)));
    [|discriminate].
  rewrite Nat2Z.id. destruct (l !! n); [intros [= ->]; reflexivity|discriminate].
Qed.

Lemma unpack2_inv {A} (l : list A) (a b : A) :
  unpack2 l = inr (a, b) -> l = [a; b].
Proof.
  destruct l as [|x [|y [|z l]]]; simpl; try discriminate.
  intros [= -> ->]. reflexivity.
Qed.

Lemma unpack2_arity {A} (l : list A) :
  length l <> 2%nat -> unpack2 l = inl ValueError.
Proof. destruct l as [|x [|y [|z l]]]; simpl; intros Hl; congruence. Qed.

(** ** Extra: the arity of [requires] *)

(** [ElasticCoef.get_variables] unpacks the resolved dependencies into
    exactly two names: with any other number of [requires] names, all of
    them keys of [data], it raises [ValueError] before any record, whatever
    the mode. *)
Theorem ElasticCoef_requires_arity self problem ir ic data mode ds :
  Forall2 (fun ii d => data !! ii = Some d) (self_requires self) ds ->
  length (self_requires self) <> 2%nat ->
  ElasticCoef.get_variables self problem ir ic data mode =
  mkOutcome {| the_problem := problem; the_data := data |} []
    (inl ValueError).
Proof.
  intros Hres Hlen.
  unfold ElasticCoef.get_variables, ElasticCoef.body.
  front.
  rewrite (proj2 (resolve_Forall2 _ _ _) Hres).
  front. rewrite unpack2_arity; [reflexivity|].
  rewrite <- (Forall2_length _ _ _ Hres). exact Hlen.
Qed.

Lemma ElasticCoef_requires_arity_witness :
  ElasticCoef.get_variables
    {| self_requires := ["pis"; "corrs_rs"; "pis"];
       self_variables := ["u"; "v"] |}
    Scenario.problem 0 1 Scenario.data "row" =
  mkOutcome {| the_problem := Scenario.problem; the_data := Scenario.data |}
    [] (inl ValueError).
Proof.
  refine (ElasticCoef_requires_arity _ Scenario.problem 0 1 Scenario.data
    "row" [Pis Scenario.pis; Corr Scenario.corrs; Pis Scenario.pis] _ _).
  - repeat constructor.
  - simpl. lia.
Defined.

Lemma dep_corrector_inv (d : Dep) (c : Corrector) :
  dep_corrector d = inr c -> d = Corr c.
Proof. destruct d; simpl; [discriminate | intros [= ->]; reflexivity]. Qed.

Lemma dep_getitem_inv (d : Dep) (ir ic : Z) (pv : ndarray) :
  dep_getitem d ir ic = inr pv ->
  exists pis, d = Pis pis /\ pis !! (ir, ic) = Some pv.
Proof.
  destruct d as [pis|c]; simpl; [|discriminate].
  unfold pair_getitem. destruct (pis !! (ir, ic)) as [x|] eqn:Hx;
    [|discriminate].
  intros [= ->]. exists pis. split; [reflexivity | exact Hx].
Qed.

Lemma dict_getitem_inv {V} (d : gmap string V) (k : string) (v : V) :
  dict_getitem d k = inr v -> d !! k = Some v.
Proof.
  unfold dict_getitem. destruct (d !! k); [intros [= ->]; reflexivity|].
  discriminate.
Qed.

Lemma pair_getitem_inv {V} (d : gmap (Z * Z) V) (ir ic : Z) (v : V) :
  pair_getitem d ir ic = inr v -> d !! (ir, ic) = Some v.
Proof.
  unfold pair_getitem. destruct (d !! (ir, ic)); [intros [= ->]; reflexivity|].
  discriminate.
Qed.

Lemma mode2var_inv (mode : string) (i : Z) :
  ElasticCoef.mode2var !! mode = Some i ->
  (mode = "row" \/ mode = "col") /\
  i = Z.of_nat (if decide (mode = "row") then 0 else 1).
Proof.
  intros Hi.
  destruct (decide (mode = "row")) as [-> | Hrow].
  { split; [left; reflexivity|]. vm_compute in Hi.
    injection Hi as <-. reflexivity. }
  destruct (decide (mode = "col")) as [-> | Hcol].
  { split; [right; reflexivity|]. vm_compute in Hi.
    injection Hi as <-. reflexivity. }
  rewrite mode2var_other in Hi by assumption. discriminate.
Qed.

(** What a normal end of each generator says about its inputs. *)
Lemma ElasticCoef_ok_inv self problem ir ic data mode :
  status (ElasticCoef.get_variables self problem ir ic data mode) = inr tt ->
  valid_call ElasticCoefK self problem ir ic data mode.
Proof.
  unfold ElasticCoef.get_variables, ElasticCoef.body.
  front. destruct (resolve data (self_requires self)) as [e|deps] eqn:Hres;
    [discriminate|].
  front. destruct (unpack2 deps) as [e|[dpis dcorrs]] eqn:Hun; [discriminate|].
  front. destruct (dict_getitem ElasticCoef.mode2var mode) as [e|i] eqn:Hi;
    [discriminate|].
  front. destruct (list_getitem (self_variables self) i) as [e|v] eqn:Hv;
    [discriminate|].
  front. destruct (variables problem !! v) as [var|] eqn:Hvar; [|discriminate].
  front. destruct (dep_corrector dcorrs) as [e|c] eqn:Hc; [discriminate|].
  front. destruct (dict_getitem (indx (di c)) (primary_var_name var))
    as [e|sl] eqn:Hsl; [discriminate|].
  front. destruct (pair_getitem (states c) ir ic) as [e|st] eqn:Hst;
    [discriminate|].
  front. destruct (dep_getitem dpis ir ic) as [e|pv] eqn:Hpv; [discriminate|].
  front. destruct (nm.add pv (slice_getitem st sl)) as [e|pi] eqn:Hadd;
    [discriminate|].
  intros _.
  apply unpack2_inv in Hun. subst deps.
  apply resolve_Forall2 in Hres.
  destruct (self_requires self) as [|p [|c' [|? ?]]] eqn:Hreq;
    try (apply Forall2_length in Hres; discriminate).
  apply Forall2_cons_1 in Hres as [Hp Hres].
  apply Forall2_cons_1 in Hres as [Hc' _].
  apply dep_corrector_inv in Hc. subst dcorrs.
  apply dep_getitem_inv in Hpv as (pis & -> & Hpv).
  apply dict_getitem_inv, mode2var_inv in Hi as [Hmode ->].
  apply list_getitem_nat_inv in Hv.
  apply dict_getitem_inv in Hsl. apply pair_getitem_inv in Hst.
  exact (valid_ElasticCoef self problem ir ic data mode p c' pis c v var sl
           st pv pi Hreq Hp Hc' Hmode Hv Hvar Hsl Hst Hpv Hadd).
Qed.

Lemma ElasticBiotCoef_ok_inv self problem ir ic data mode :
  mode = "row" \/ mode = "col" ->
  status (ElasticBiotCoef.get_variables self problem ir ic data mode)
    = inr tt ->
  valid_call ElasticBiotCoefK self problem ir ic data mode.
Proof.
  intros Hmode.
  unfold ElasticBiotCoef.get_variables, ElasticBiotCoef.body.
  destruct (decide (mode = "col")) as [-> | Hcol].
  - front. destruct (list_getitem (self_variables self) 0) as [e|v] eqn:Hv;
      [discriminate|].
    front. destruct (variables problem !! v) as [var|] eqn:Hvar;
      [|discriminate].
    intros _. apply (list_getitem_nat_inv _ 0%nat) in Hv.
    exact (valid_ElasticBiotCoef_col self problem ir ic data v var Hv Hvar).
  - destruct Hmode as [-> | ->]; [|congruence].
    front. destruct (list_getitem (self_variables self) 1) as [e|v] eqn:Hv;
      [discriminate|].
    front. destruct (variables problem !! v) as [var|] eqn:Hvar;
      [|discriminate].
    front. destruct (resolve data (self_requires self)) as [e|deps] eqn:Hres;
      [discriminate|].
    front. destruct (list_getitem deps 0) as [e|d] eqn:Hd; [discriminate|].
    front. destruct (dep_corrector d) as [e|c] eqn:Hc; [discriminate|].
    front. destruct (dict_getitem (indx (di c)) (primary_var_name var))
      as [e|sl] eqn:Hsl; [discriminate|].
    front. destruct (pair_getitem (states c) ir ic) as [e|st] eqn:Hst;
      [discriminate|].
    intros _.
    apply dep_corrector_inv in Hc. subst d.
    apply (list_getitem_nat_inv _ 0%nat) in Hd.
    destruct deps as [|d ds]; [discriminate|]. injection Hd as ->.
    apply resolve_Forall2 in Hres.
    apply (list_getitem_nat_inv _ 1%nat) in Hv.
    apply dict_getitem_inv in Hsl. apply pair_getitem_inv in Hst.
    exact (valid_ElasticBiotCoef_row self problem ir ic data v var c ds sl st
             Hv Hvar Hres Hsl Hst).
Qed.

(** ** Extra: when a call ends normally *)

(** For a mode ['row'] or ['col'], a call of a symmetric evaluator ends
    without exception exactly when it is a valid call: [valid_call] lists
    all the lookups the call needs, and nothing more. *)
Theorem get_variables_ok_iff_valid k self problem ir ic data mode :
  mode = "row" \/ mode = "col" ->
  status (get_variables_of k self problem ir ic data mode) = inr tt <->
  valid_call k self problem ir ic data mode.
Proof.
  intros Hmode. split.
  - destruct k; simpl.
    + apply ElasticCoef_ok_inv.
    + apply ElasticBiotCoef_ok_inv, Hmode.
  - intros Hvalid.
    destruct Hvalid as
      [ self problem ir ic data mode p c pis corrs v var sl st pv pi
          Hr Hp Hc Hm Hv Hvar Hsl Hst Hpv Hadd
      | self problem ir ic data v one_var Hv Hvar
      | self problem ir ic data v var corrs ds sl st Hv Hvar Hreq Hsl Hst ];
      simpl.
    + rewrite (ElasticCoef_run self problem ir ic data mode p c pis corrs v
                 var sl st pv) by assumption.
      rewrite (bind_lift_eq _ pi) by exact Hadd. reflexivity.
    + rewrite (ElasticBiotCoef_run_col _ _ _ _ _ v one_var) by assumption.
      reflexivity.
    + rewrite (ElasticBiotCoef_run_else _ _ _ _ _ "row" v var corrs ds sl st)
        by (assumption || discriminate).
      reflexivity.
Qed.

Lemma get_variables_ok_iff_valid_witness :
  status (get_variables_of ElasticCoefK Scenario.elastic Scenario.problem 0 0
            Scenario.data "row") = inr tt <->
  valid_call ElasticCoefK Scenario.elastic Scenario.problem 0 0
    Scenario.data "row".
Proof.
  exact (get_variables_ok_iff_valid ElasticCoefK Scenario.elastic
           Scenario.problem 0 0 Scenario.data "row" (or_introl eq_refl)).
Defined.

(** ** Extra: row and column of the elastic tensor *)

(** When the two declared variables of [ElasticCoef] have the same primary
    variable, modes ['row'] and ['col'] end the same way and yield the same
    field: the two records differ in the variable name only. *)
Theorem ElasticCoef_row_col_same_field
    self problem ir ic data v0 v1 var0 var1 :
  self_variables self !! 0%nat = Some v0 ->
  self_variables self !! 1%nat = Some v1 ->
  variables problem !! v0 = Some var0 ->
  variables problem !! v1 = Some var1 ->
  primary_var_name var0 = primary_var_name var1 ->
  let row := ElasticCoef.get_variables self problem ir ic data "row" in
  let col := ElasticCoef.get_variables self problem ir ic data "col" in
  status row = status col /\
  yielded row = (fun r => (v0, r.2)) <$> yielded col /\
  yielded col = (fun r => (v1, r.2)) <$> yielded row.
Proof.
  intros Hv0 Hv1 Hvar0 Hvar1 Hprim row col. subst row col.
  unfold ElasticCoef.get_variables, ElasticCoef.body.
  rewrite !bind_comprehension_cases.
  unfold data_of, Reach_HasData; cbn [the_data the_problem].
  destruct (resolve data (self_requires self)) as [e|deps];
    [repeat split|].
  rewrite !bind_lift_cases.
  destruct (unpack2 deps) as [e|[dpis dcorrs]]; [repeat split|].
  rewrite !bind_lift_cases.
  change (dict_getitem ElasticCoef.mode2var "row") with (inr 0 : exn + Z).
  change (dict_getitem ElasticCoef.mode2var "col") with (inr 1 : exn + Z).
  cbv iota. rewrite !bind_lift_cases.
  rewrite (list_getitem_lookup _ 0%nat v0 Hv0 : list_getitem _ 0 = _).
  rewrite (list_getitem_lookup _ 1%nat v1 Hv1 : list_getitem _ 1 = _).
  cbv iota. rewrite !bind_problem_variable_cases. cbn [the_problem].
  rewrite Hvar0, Hvar1, Hprim.
  rewrite !bind_lift_cases.
  destruct (dep_corrector dcorrs) as [e|c]; [repeat split|].
  rewrite !bind_lift_cases.
  destruct (dict_getitem (indx (di c)) (primary_var_name var1)) as [e|sl];
    [repeat split|].
  rewrite !bind_lift_cases.
  destruct (pair_getitem (states c) ir ic) as [e|st]; [repeat split|].
  rewrite !bind_lift_cases.
  destruct (dep_getitem dpis ir ic) as [e|pv]; [repeat split|].
  rewrite !bind_lift_cases.
  destruct (nm.add pv (slice_getitem st sl)) as [e|pi]; repeat split.
Qed.

Lemma ElasticCoef_row_col_same_field_witness :
  yielded (ElasticCoef.get_variables Scenario.elastic Scenario.problem 0 1
             Scenario.data "row") =
  (fun r => ("u", r.2)) <$>
    yielded (ElasticCoef.get_variables Scenario.elastic Scenario.problem 0 1
               Scenario.data "col").
Proof.
  exact (proj1 (proj2 (ElasticCoef_row_col_same_field Scenario.elastic
    Scenario.problem 0 1 Scenario.data "u" "v"
    {| primary_var_name := "u"; field := {| n_nod := 3 |} |}
    {| primary_var_name := "u"; field := {| n_nod := 3 |} |}
    eq_refl eq_refl eq_refl eq_refl eq_refl))).
Defined.

(** ** Extra: what of [data] a call reads *)

(** A symmetric evaluator reads [data] under the names of its [requires]
    only: two mappings that agree on those names give the same records and
    the same end, whatever else they hold. *)
Theorem get_variables_reads_requires_only
    k self problem ir ic (data data' : gmap string Dep) mode :
  (forall ii, ii ∈ self_requires self -> data !! ii = data' !! ii) ->
  let o := get_variables_of k self problem ir ic data mode in
  let o' := get_variables_of k self problem ir ic data' mode in
  yielded o = yielded o' /\ status o = status o'.
Proof.
  intros Hagree o o'. subst o o'.
  pose proof (resolve_ext data data' (self_requires self) Hagree) as Hres.
  destruct k; simpl.
  - unfold ElasticCoef.get_variables, ElasticCoef.body.
    rewrite !bind_comprehension_cases.
    unfold data_of, Reach_HasData; cbn [the_data the_problem].
    rewrite <- Hres.
    destruct (resolve data (self_requires self)) as [e|deps];
      [split; reflexivity|].
    rewrite !bind_lift_cases.
    destruct (unpack2 deps) as [e|[dpis dcorrs]]; [split; reflexivity|].
    rewrite !bind_lift_cases.
    destruct (dict_getitem ElasticCoef.mode2var mode) as [e|i];
      [split; reflexivity|].
    rewrite !bind_lift_cases.
    destruct (list_getitem (self_variables self) i) as [e|v];
      [split; reflexivity|].
    rewrite !bind_problem_variable_cases. cbn [the_problem].
    destruct (variables problem !! v) as [var|]; [|split; reflexivity].
    rewrite !bind_lift_cases.
    destruct (dep_corrector dcorrs) as [e|c]; [split; reflexivity|].
    rewrite !bind_lift_cases.
    destruct (dict_getitem (indx (di c)) (primary_var_name var)) as [e|sl];
      [split; reflexivity|].
    rewrite !bind_lift_cases.
    destruct (pair_getitem (states c) ir ic) as [e|st]; [split; reflexivity|].
    rewrite !bind_lift_cases.
    destruct (dep_getitem dpis ir ic) as [e|pv]; [split; reflexivity|].
    rewrite !bind_lift_cases.
    destruct (nm.add pv (slice_getitem st sl)) as [e|pi]; split; reflexivity.
  - unfold ElasticBiotCoef.get_variables, ElasticBiotCoef.body.
    destruct (decide (mode = "col")) as [Hcol|Hcol].
    + rewrite !bind_lift_cases.
      destruct (list_getitem (self_variables self) 0) as [e|v];
        [split; reflexivity|].
      rewrite !bind_problem_variable_cases. cbn [the_problem].
      destruct (variables problem !! v) as [var|]; split; reflexivity.
    + rewrite !bind_lift_cases.
      destruct (list_getitem (self_variables self) 1) as [e|v];
        [split; reflexivity|].
      rewrite !bind_problem_variable_cases. cbn [the_problem].
      destruct (variables problem !! v) as [var|]; [|split; reflexivity].
      rewrite !bind_comprehension_cases.
      unfold data_of, Reach_HasData; cbn [the_data the_problem].
      rewrite <- Hres.
      destruct (resolve data (self_requires self)) as [e|deps];
        [split; reflexivity|].
      rewrite !bind_lift_cases.
      destruct (list_getitem deps 0) as [e|d]; [split; reflexivity|].
      rewrite !bind_lift_cases.
      destruct (dep_corrector d) as [e|c]; [split; reflexivity|].
      rewrite !bind_lift_cases.
      destruct (dict_getitem (indx (di c)) (primary_var_name var)) as [e|sl];
        [split; reflexivity|].
      rewrite !bind_lift_cases.
      destruct (pair_getitem (states c) ir ic) as [e|st]; split; reflexivity.
Qed.

Lemma get_variables_reads_requires_only_witness :
  yielded (get_variables_of ElasticBiotCoefK Scenario.biot Scenario.problem
             0 1 Scenario.data "row") =
  yielded (get_variables_of ElasticBiotCoefK Scenario.biot Scenario.problem
             0 1 {[ "corrs_rs" := Corr Scenario.corrs ]} "row").
Proof.
  refine (proj1 (get_variables_reads_requires_only ElasticBiotCoefK
    Scenario.biot Scenario.problem 0 1 Scenario.data
    {[ "corrs_rs" := Corr Scenario.corrs ]} "row" _)).
  intros ii Hii. apply list_elem_of_singleton in Hii as ->. reflexivity.
Defined.

(** [CorrectorsElasticRS.get_variables] reads [data] under the first name
    of [requires] only: later names need not even be keys of [data]. *)
Theorem CorrectorsElasticRS_reads_first_requirement
    self ir ic (data data' : gmap string Dep) :
  (forall p, self_requires self !! 0%nat = Some p ->
     data !! p = data' !! p) ->
  let o := CorrectorsElasticRS.get_variables self ir ic data in
  let o' := CorrectorsElasticRS.get_variables self ir ic data' in
  yielded o = yielded o' /\ status o = status o'.
Proof.
  intros Hagree o o'. subst o o'.
  unfold CorrectorsElasticRS.get_variables, CorrectorsElasticRS.body.
  rewrite !bind_lift_cases.
  destruct (list_getitem (self_requires self) 0) as [e|p] eqn:Hp;
    [split; reflexivity|].
  apply (list_getitem_nat_inv _ 0%nat) in Hp.
  rewrite !bind_data_getitem_cases.
  unfold data_of, data_HasData. rewrite <- (Hagree p Hp).
  destruct (data !! p) as [d|]; [|split; reflexivity].
  rewrite !bind_lift_cases.
  destruct (list_getitem (self_variables self) (-1)) as [e|v];
    [split; reflexivity|].
  rewrite !bind_lift_cases.
  destruct (dep_getitem d ir ic) as [e|pv]; split; reflexivity.
Qed.

Lemma CorrectorsElasticRS_reads_first_requirement_witness :
  yielded (CorrectorsElasticRS.get_variables
             {| self_requires := ["pis"; "absent"];
                self_variables := ["Pi"] |} 0 1 Scenario.data) =
  yielded (CorrectorsElasticRS.get_variables
             {| self_requires := ["pis"; "absent"];
                self_variables := ["Pi"] |} 0 1
             {[ "pis" := Pis Scenario.pis ]}).
Proof.
  refine (proj1 (CorrectorsElasticRS_reads_first_requirement
    {| self_requires := ["pis"; "absent"]; self_variables := ["Pi"] |}
    0 1 Scenario.data {[ "pis" := Pis Scenario.pis ]} _)).
  intros p [= <-]. reflexivity.
Defined.

(** ** Extra: the sub-vector a slice takes *)

Lemma slice_getitem_nonneg (a : ndarray) (sl : slice) :
  0 <= start sl ->
  0 <= stop sl ->
  slice_getitem a sl =
  take (Z.to_nat (Z.min (stop sl) (Z.of_nat (length a))) -
        Z.to_nat (Z.min (start sl) (Z.of_nat (length a))))%nat
       (drop (Z.to_nat (start sl)) a).
Proof.
  intros Hlo Hhi. unfold slice_getitem, clip.
  destruct (Z.ltb_spec (start sl) 0) as [?|_]; [lia|].
  destruct (Z.ltb_spec (stop sl) 0) as [?|_]; [lia|].
  rewrite Z2Nat.inj_sub by lia.
  destruct (Z.le_ge_cases (start sl) (Z.of_nat (length a))) as [Hin|Hout].
  - rewrite (Z.min_l (start sl)) by exact Hin. reflexivity.
  - rewrite (Z.min_r (start sl)) by exact Hout.
    rewrite !drop_ge by lia. rewrite !take_nil. reflexivity.
Qed.

Lemma slice_getitem_length (a : ndarray) (sl : slice) :
  0 <= start sl <= stop sl ->
  length (slice_getitem a sl) =
  (Z.to_nat (Z.min (stop sl) (Z.of_nat (length a))) - Z.to_nat (start sl))%nat.
Proof.
  intros [Hlo Hhi]. rewrite slice_getitem_nonneg by lia.
  rewrite length_take, length_drop. lia.
Qed.

Lemma slice_getitem_lookup (a : ndarray) (sl : slice) (i : nat) :
  0 <= start sl <= stop sl ->
  (i < length (slice_getitem a sl))%nat ->
  slice_getitem a sl !! i = a !! (Z.to_nat (start sl) + i)%nat.
Proof.
  intros Hb Hi. rewrite slice_getitem_length in Hi by exact Hb.
  rewrite slice_getitem_nonneg by lia.
  rewrite lookup_take_lt by lia. apply lookup_drop.
Qed.

(** In the corrector branch of [ElasticBiotCoef.get_variables], for a slice
    [0 <= start <= stop], the yielded field holds the entries of the state
    vector from [start] up to [stop] or the end of the vector, whichever
    comes first: entry [i] of the field is entry [start + i] of the state.
    A slice that reaches past the end of the vector raises nothing. *)
Theorem ElasticBiotCoef_row_entries
    self problem ir ic data c corrs v var sl st :
  self_variables self !! 1%nat = Some v ->
  variables problem !! v = Some var ->
  self_requires self = [c] ->
  data !! c = Some (Corr corrs) ->
  indx (di corrs) !! primary_var_name var = Some sl ->
  states corrs !! (ir, ic) = Some st ->
  0 <= start sl <= stop sl ->
  let o := ElasticBiotCoef.get_variables self problem ir ic data "row" in
  exists f : ndarray,
    yielded o = [(v, f)] /\ status o = inr tt /\
    length f =
      (Z.to_nat (Z.min (stop sl) (Z.of_nat (length st))) -
       Z.to_nat (start sl))%nat /\
    forall i : nat, (i < length f)%nat ->
      f !! i = st !! (Z.to_nat (start sl) + i)%nat.
Proof.
  intros Hv Hvar Hr Hc Hsl Hst Hb o. subst o.
  rewrite (ElasticBiotCoef_run_else _ _ _ _ _ "row" v var corrs [] sl st);
    [ | discriminate | assumption | assumption
      | rewrite Hr; repeat constructor; exact Hc | assumption | assumption ].
  exists (slice_getitem st sl).
  split; [reflexivity|]. split; [reflexivity|].
  split; [apply slice_getitem_length, Hb|].
  intros i Hi. apply slice_getitem_lookup; assumption.
Qed.

Lemma ElasticBiotCoef_row_entries_witness :
  exists f : ndarray,
    yielded (ElasticBiotCoef.get_variables Scenario.biot Scenario.problem 0 1
               {[ "corrs_rs" := Corr
                    {| di := {| indx := {[ "u" := Slice 1 7 ]} |};
                       states := {[ (0, 1) := [1; 2; 3]%float ]} |} ]} "row")
      = [("u", f)] /\ length f = 2%nat.
Proof.
  assert (Hb : 0 <= 1 <= 7) by lia.
  destruct (ElasticBiotCoef_row_entries Scenario.biot Scenario.problem 0 1
    {[ "corrs_rs" := Corr
         {| di := {| indx := {[ "u" := Slice 1 7 ]} |};
            states := {[ (0, 1) := [1; 2; 3]%float ]} |} ]}
    "corrs_rs"
    {| di := {| indx := {[ "u" := Slice 1 7 ]} |};
       states := {[ (0, 1) := [1; 2; 3]%float ]} |}
    "u" {| primary_var_name := "u"; field := {| n_nod := 3 |} |}
    (Slice 1 7) [1; 2; 3]%float
    ltac:(reflexivity) ltac:(reflexivity) ltac:(reflexivity)
    ltac:(reflexivity) ltac:(reflexivity) ltac:(reflexivity) Hb)
    as (f & Hy & _ & Hlen & _).
  exists f. split; [exact Hy | exact Hlen].
Defined.

(** ** Extra: shapes in the elastic tensor *)

(** With every lookup of [ElasticCoef.get_variables] resolved, a
    perturbation-field value and a corrector sub-vector of different
    lengths, neither of length one, make the addition raise [ValueError]:
    no record is yielded and no entry is padded or dropped. *)
Theorem ElasticCoef_shape_mismatch
    self problem ir ic data mode p c pis corrs v var sl st pv :
  self_requires self = [p; c] ->
  data !! p = Some (Pis pis) ->
  data !! c = Some (Corr corrs) ->
  mode = "row" \/ mode = "col" ->
  self_variables self !! (if decide (mode = "row") then 0 else 1)%nat
    = Some v ->
  variables problem !! v = Some var ->
  indx (di corrs) !! primary_var_name var = Some sl ->
  states corrs !! (ir, ic) = Some st ->
  pis !! (ir, ic) = Some pv ->
  length pv <> length (slice_getitem st sl) ->
  length pv <> 1%nat ->
  length (slice_getitem st sl) <> 1%nat ->
  ElasticCoef.get_variables self problem ir ic data mode =
  mkOutcome {| the_problem := problem; the_data := data |} []
    (inl ValueError).
Proof.
  intros Hr Hp Hc Hm Hv Hvar Hsl Hst Hpv Hne Hpv1 Hom1.
  rewrite (ElasticCoef_run self problem ir ic data mode p c pis corrs v var
             sl st pv) by assumption.
  rewrite bind_lift_cases.
  assert (Hadd : nm.add pv (slice_getitem st sl) = inl ValueError).
  { unfold nm.add. rewrite decide_False by exact Hne.
    destruct pv as [|x [|x' pv]], (slice_getitem st sl) as [|y [|y' om]];
      simpl in *; congruence. }
  rewrite Hadd. reflexivity.
Qed.

Lemma ElasticCoef_shape_mismatch_witness :
  ElasticCoef.get_variables Scenario.elastic Scenario.problem 0 1
    {[ "pis" := Pis {[ (0, 1) := [0.1; 0.1]%float ]};
       "corrs_rs" := Corr Scenario.corrs ]} "row" =
  mkOutcome
    {| the_problem := Scenario.problem;
       the_data := {[ "pis" := Pis {[ (0, 1) := [0.1; 0.1]%float ]};
                      "corrs_rs" := Corr Scenario.corrs ]} |}
    [] (inl ValueError).
Proof.
  refine (ElasticCoef_shape_mismatch Scenario.elastic Scenario.problem 0 1
    {[ "pis" := Pis {[ (0, 1) := [0.1; 0.1]%float ]};
       "corrs_rs" := Corr Scenario.corrs ]} "row" "pis" "corrs_rs"
    {[ (0, 1) := [0.1; 0.1]%float ]} Scenario.corrs "u"
    {| primary_var_name := "u"; field := {| n_nod := 3 |} |}
    (Slice 0 3) [1; 2; 3]%float [0.1; 0.1]%float
    eq_refl eq_refl eq_refl (or_introl eq_refl) eq_refl eq_refl eq_refl
    eq_refl eq_refl _ _ _); simpl; lia.
Defined.

(** With every lookup resolved, a slice [0 <= start <= stop] inside the
    state vector and a perturbation-field value of [stop - start] entries,
    entry [i] of the field [ElasticCoef.get_variables] yields is
    [pis[ir,ic][i] + states[ir,ic][start + i]]. *)
Theorem ElasticCoef_entries
    self problem ir ic data mode p c pis corrs v var sl st pv :
  self_requires self = [p; c] ->
  data !! p = Some (Pis pis) ->
  data !! c = Some (Corr corrs) ->
  mode = "row" \/ mode = "col" ->
  self_variables self !! (if decide (mode = "row") then 0 else 1)%nat
    = Some v ->
  variables problem !! v = Some var ->
  indx (di corrs) !! primary_var_name var = Some sl ->
  states corrs !! (ir, ic) = Some st ->
  pis !! (ir, ic) = Some pv ->
  0 <= start sl <= stop sl ->
  stop sl <= Z.of_nat (length st) ->
  Z.of_nat (length pv) = stop sl - start sl ->
  let o := ElasticCoef.get_variables self problem ir ic data mode in
  exists f : ndarray,
    yielded o = [(v, f)] /\ status o = inr tt /\
    length f = length pv /\
    forall (i : nat) (x y : float),
      pv !! i = Some x ->
      st !! (Z.to_nat (start sl) + i)%nat = Some y ->
      f !! i = Some (x + y)%float.
Proof.
  intros Hr Hp Hc Hm Hv Hvar Hsl Hst Hpv Hb Hstop Hlen o. subst o.
  assert (Hom : length (slice_getitem st sl) = length pv).
  { rewrite slice_getitem_length by exact Hb. lia. }
  rewrite (ElasticCoef_run self problem ir ic data mode p c pis corrs v var
             sl st pv) by assumption.
  rewrite (bind_lift_eq _ (zip_with PrimFloat.add pv (slice_getitem st sl)))
    by (apply nm_add_same_length; congruence).
  eexists. split; [reflexivity|]. split; [reflexivity|].
  split.
  - rewrite length_zip_with. lia.
  - intros i x y Hx Hy.
    rewrite lookup_zip_with, Hx. simpl.
    rewrite slice_getitem_lookup, Hy; [reflexivity | exact Hb |].
    rewrite Hom. eapply lookup_lt_Some, Hx.
Qed.

Lemma ElasticCoef_entries_witness :
  exists f : ndarray,
    yielded (ElasticCoef.get_variables Scenario.elastic Scenario.problem 0 1
               Scenario.data "row") = [("u", f)] /\
    f !! 2%nat = Some (0.1 + 3)%float.
Proof.
  destruct (ElasticCoef_entries Scenario.elastic Scenario.problem 0 1
    Scenario.data "row" "pis" "corrs_rs" Scenario.pis Scenario.corrs "u"
    {| primary_var_name := "u"; field := {| n_nod := 3 |} |}
    (Slice 0 3) [1; 2; 3]%float [0.1; 0.1; 0.1]%float
    eq_refl eq_refl eq_refl (or_introl eq_refl) eq_refl eq_refl eq_refl
    eq_refl eq_refl
    ltac:(simpl; lia) ltac:(simpl; lia) eq_refl)
    as (f & Hy & _ & _ & Hent).
  exists f. split; [exact Hy|].
  exact (Hent 2%nat 0.1%float 3%float eq_refl eq_refl).
Defined.

(** ** Extra: the order and the kinds of the dependencies *)

(** The two names of [ElasticCoef]'s [requires] are positional: listed as
    (corrector, perturbation field) instead of (perturbation field,
    corrector), with the mode and the variable resolved, the call raises
    [AttributeError] on [corrs.di] and yields nothing. *)
Theorem ElasticCoef_requires_order
    self problem ir ic data mode p c pis corrs v var :
  self_requires self = [c; p] ->
  data !! p = Some (Pis pis) ->
  data !! c = Some (Corr corrs) ->
  mode = "row" \/ mode = "col" ->
  self_variables self !! (if decide (mode = "row") then 0 else 1)%nat
    = Some v ->
  variables problem !! v = Some var ->
  ElasticCoef.get_variables self problem ir ic data mode =
  mkOutcome {| the_problem := problem; the_data := data |} []
    (inl AttributeError).
Proof.
  intros Hr Hp Hc Hm Hv Hvar.
  unfold ElasticCoef.get_variables, ElasticCoef.body.
  front. rewrite Hr. simpl resolve. rewrite Hc, Hp.
  front. simpl unpack2. cbv iota.
  front. unfold dict_getitem.
  rewrite mode2var_row_col by exact Hm.
  front. rewrite (list_getitem_lookup _ _ v Hv).
  front. rewrite Hvar.
  front. reflexivity.
Qed.

Lemma ElasticCoef_requires_order_witness :
  ElasticCoef.get_variables
    {| self_requires := ["corrs_rs"; "pis"]; self_variables := ["u"; "v"] |}
    Scenario.problem 0 1 Scenario.data "col" =
  mkOutcome {| the_problem := Scenario.problem; the_data := Scenario.data |}
    [] (inl AttributeError).
Proof.
  exact (ElasticCoef_requires_order
    {| self_requires := ["corrs_rs"; "pis"]; self_variables := ["u"; "v"] |}
    Scenario.problem 0 1 Scenario.data "col" "pis" "corrs_rs" Scenario.pis
    Scenario.corrs "v"
    {| primary_var_name := "u"; field := {| n_nod := 3 |} |}
    eq_refl eq_refl eq_refl (or_intror eq_refl) eq_refl eq_refl).
Defined.

(** ** Extra: an index pair that is not there *)

(** With every name resolved, an index pair missing from the corrector's
    [states] or from the perturbation field makes
    [ElasticCoef.get_variables] raise [KeyError] on that pair, before any
    record. *)
Theorem ElasticCoef_unknown_index_pair
    self problem ir ic data mode p c pis corrs v var sl :
  self_requires self = [p; c] ->
  data !! p = Some (Pis pis) ->
  data !! c = Some (Corr corrs) ->
  mode = "row" \/ mode = "col" ->
  self_variables self !! (if decide (mode = "row") then 0 else 1)%nat
    = Some v ->
  variables problem !! v = Some var ->
  indx (di corrs) !! primary_var_name var = Some sl ->
  states corrs !! (ir, ic) = None \/ pis !! (ir, ic) = None ->
  ElasticCoef.get_variables self problem ir ic data mode =
  mkOutcome {| the_problem := problem; the_data := data |} []
    (inl (KeyError (KPair ir ic))).
Proof.
  intros Hr Hp Hc Hm Hv Hvar Hsl Hnone.
  unfold ElasticCoef.get_variables, ElasticCoef.body.
  front. rewrite Hr. simpl resolve. rewrite Hc, Hp.
  front. simpl unpack2. cbv iota.
  front. unfold dict_getitem at 1.
  rewrite mode2var_row_col by exact Hm.
  front. rewrite (list_getitem_lookup _ _ v Hv).
  front. rewrite Hvar.
  front. simpl dep_corrector. cbv iota.
  front. unfold dict_getitem. rewrite Hsl.
  front. unfold pair_getitem at 1.
  destruct (states corrs !! (ir, ic)) as [st|] eqn:Hst; [|reflexivity].
  destruct Hnone as [?|Hpv]; [discriminate|].
  front. simpl dep_getitem. unfold pair_getitem. rewrite Hpv. reflexivity.
Qed.

Lemma ElasticCoef_unknown_index_pair_witness :
  ElasticCoef.get_variables Scenario.elastic Scenario.problem 1 0
    Scenario.data "row" =
  mkOutcome {| the_problem := Scenario.problem; the_data := Scenario.data |}
    [] (inl (KeyError (KPair 1 0))).
Proof.
  exact (ElasticCoef_unknown_index_pair Scenario.elastic Scenario.problem 1 0
    Scenario.data "row" "pis" "corrs_rs" Scenario.pis Scenario.corrs "u"
    {| primary_var_name := "u"; field := {| n_nod := 3 |} |} (Slice 0 3)
    eq_refl eq_refl eq_refl (or_introl eq_refl) eq_refl eq_refl eq_refl
    (or_introl eq_refl)).
Defined.

(** ** Extra: lists that are too short *)

(** The corrector branch of [ElasticBiotCoef.get_variables] starts with
    [self.variables[1]]: an evaluator with fewer than two declared variables
    raises [IndexError] for every mode other than ['col'], whatever the
    problem context and [data] hold. *)
Theorem ElasticBiotCoef_needs_two_variables self problem ir ic data mode :
  (length (self_variables self) < 2)%nat ->
  mode <> "col" ->
  ElasticBiotCoef.get_variables self problem ir ic data mode =
  mkOutcome {| the_problem := problem; the_data := data |} []
    (inl IndexError).
Proof.
  intros Hlen Hmode.
  unfold ElasticBiotCoef.get_variables, ElasticBiotCoef.body.
  rewrite decide_False by exact Hmode.
  front. rewrite (list_getitem_short _ 1%nat : _ -> list_getitem _ 1 = _)
    by lia.
  reflexivity.
Qed.

Lemma ElasticBiotCoef_needs_two_variables_witness :
  ElasticBiotCoef.get_variables
    {| self_requires := ["corrs_rs"]; self_variables := ["one"] |}
    Scenario.problem 0 1 Scenario.data "row" =
  mkOutcome {| the_problem := Scenario.problem; the_data := Scenario.data |}
    [] (inl IndexError).
Proof.
  refine (ElasticBiotCoef_needs_two_variables
    {| self_requires := ["corrs_rs"]; self_variables := ["one"] |}
    Scenario.problem 0 1 Scenario.data "row" _ _).
  - simpl. lia.
  - discriminate.
Defined.

(** With an empty [requires] list, [CorrectorsElasticRS.get_variables]
    raises [IndexError] on [self.requires[0]] without reading [data], and
    the corrector branch of [ElasticBiotCoef.get_variables], its variable
    resolved, raises [IndexError] on the empty list of dependencies. *)
Theorem empty_requires_raises self problem ir ic data mode :
  self_requires self = [] ->
  CorrectorsElasticRS.get_variables self ir ic data =
    mkOutcome data [] (inl IndexError) /\
  (mode <> "col" ->
   forall v, self_variables self !! 1%nat = Some v ->
     is_Some (variables problem !! v) ->
     ElasticBiotCoef.get_variables self problem ir ic data mode =
     mkOutcome {| the_problem := problem; the_data := data |} []
       (inl IndexError)).
Proof.
  intros Hr. split.
  - unfold CorrectorsElasticRS.get_variables, CorrectorsElasticRS.body.
    front. rewrite Hr. reflexivity.
  - intros Hmode v Hv [var Hvar].
    unfold ElasticBiotCoef.get_variables, ElasticBiotCoef.body.
    rewrite decide_False by exact Hmode.
    front. rewrite (list_getitem_lookup _ 1%nat v Hv : list_getitem _ 1 = _).
    front. rewrite Hvar.
    front. rewrite Hr. simpl resolve. cbv iota.
    front. reflexivity.
Qed.

Lemma empty_requires_raises_witness :
  CorrectorsElasticRS.get_variables
    {| self_requires := []; self_variables := ["Pi"] |} 0 1 Scenario.data =
  mkOutcome Scenario.data [] (inl IndexError).
Proof.
  exact (proj1 (empty_requires_raises
    {| self_requires := []; self_variables := ["Pi"] |}
    Scenario.problem 0 1 Scenario.data "row" eq_refl)).
Defined.

(** ** Extra: the three generators together *)

Lemma CorrectorsElasticRS_yield_inv self ir ic data w (a : ndarray) :
  yielded (CorrectorsElasticRS.get_variables self ir ic data) = [(w, a)] ->
  exists p pis,
    self_requires self !! 0%nat = Some p /\
    data !! p = Some (Pis pis) /\
    pis !! (ir, ic) = Some a.
Proof.
  unfold CorrectorsElasticRS.get_variables, CorrectorsElasticRS.body.
  front. destruct (list_getitem (self_requires self) 0) as [e|p] eqn:Hp;
    [discriminate|].
  front. destruct (data !! p) as [d|] eqn:Hd; [|discriminate].
  front. destruct (list_getitem (self_variables self) (-1)) as [e|v] eqn:Hv;
    [discriminate|].
  front. destruct (dep_getitem d ir ic) as [e|pv] eqn:Hpv; [discriminate|].
  intros [= _ <-].
  apply dep_getitem_inv in Hpv as (pis & -> & Hpv).
  apply (list_getitem_nat_inv _ 0%nat) in Hp.
  exists p, pis. auto.
Qed.

Lemma ElasticBiotCoef_row_yield_inv self problem ir ic data v (b : ndarray) :
  yielded (ElasticBiotCoef.get_variables self problem ir ic data "row")
    = [(v, b)] ->
  exists var corrs ds sl st,
    self_variables self !! 1%nat = Some v /\
    variables problem !! v = Some var /\
    Forall2 (fun ii d => data !! ii = Some d) (self_requires self)
      (Corr corrs :: ds) /\
    indx (di corrs) !! primary_var_name var = Some sl /\
    states corrs !! (ir, ic) = Some st /\
    b = slice_getitem st sl.
Proof.
  unfold ElasticBiotCoef.get_variables, ElasticBiotCoef.body.
  rewrite decide_False by discriminate.
  front. destruct (list_getitem (self_variables self) 1) as [e|v'] eqn:Hv;
    [discriminate|].
  front. destruct (variables problem !! v') as [var|] eqn:Hvar;
    [|discriminate].
  front. destruct (resolve data (self_requires self)) as [e|deps] eqn:Hres;
    [discriminate|].
  front. destruct (list_getitem deps 0) as [e|d] eqn:Hd; [discriminate|].
  front. destruct (dep_corrector d) as [e|c] eqn:Hc; [discriminate|].
  front. destruct (dict_getitem (indx (di c)) (primary_var_name var))
    as [e|sl] eqn:Hsl; [discriminate|].
  front. destruct (pair_getitem (states c) ir ic) as [e|st] eqn:Hst;
    [discriminate|].
  intros [= -> <-].
  apply dep_corrector_inv in Hc. subst d.
  apply (list_getitem_nat_inv _ 0%nat) in Hd.
  destruct deps as [|d ds]; [discriminate|]. injection Hd as ->.
  apply resolve_Forall2 in Hres.
  apply (list_getitem_nat_inv _ 1%nat) in Hv.
  apply dict_getitem_inv in Hsl. apply pair_getitem_inv in Hst.
  exists var, c, ds, sl, st. auto 10.
Qed.

(** The field of the elastic tensor is the sum of what the other two
    generators yield from the same dependencies: if
    [CorrectorsElasticRS.get_variables] reads the perturbation field named
    first in [ElasticCoef]'s [requires] and yields the field [a], and the
    corrector branch of [ElasticBiotCoef.get_variables] reads the corrector
    named second and yields [b] for a variable with the same primary
    variable, then [ElasticCoef.get_variables] yields [a + b]. *)
Theorem ElasticCoef_sums_the_other_two
    elastic rs biot problem ir ic data mode p c w a v' b v var var' :
  self_requires elastic = [p; c] ->
  self_requires rs !! 0%nat = Some p ->
  self_requires biot = [c] ->
  yielded (CorrectorsElasticRS.get_variables rs ir ic data) = [(w, a)] ->
  yielded (ElasticBiotCoef.get_variables biot problem ir ic data "row")
    = [(v', b)] ->
  mode = "row" \/ mode = "col" ->
  self_variables elastic !! (if decide (mode = "row") then 0 else 1)%nat
    = Some v ->
  variables problem !! v = Some var ->
  variables problem !! v' = Some var' ->
  primary_var_name var = primary_var_name var' ->
  forall pi, nm.add a b = inr pi ->
    let o := ElasticCoef.get_variables elastic problem ir ic data mode in
    yielded o = [(v, pi)] /\ status o = inr tt.
Proof.
  intros Hr Hrs Hbiot Hya Hyb Hm Hv Hvar Hvar' Hprim pi Hadd o. subst o.
  apply CorrectorsElasticRS_yield_inv in Hya as (p' & pis & Hp' & Hp & Ha).
  rewrite Hrs in Hp'. injection Hp' as <-.
  apply ElasticBiotCoef_row_yield_inv in Hyb
    as (var'' & corrs & ds & sl & st & _ & Hvar'' & Hres & Hsl & Hst & ->).
  rewrite Hvar' in Hvar''. injection Hvar'' as <-.
  rewrite Hbiot in Hres. apply Forall2_cons_1 in Hres as [Hc _].
  rewrite <- Hprim in Hsl.
  rewrite (ElasticCoef_run elastic problem ir ic data mode p c pis corrs v
             var sl st a) by assumption.
  rewrite (bind_lift_eq _ pi) by exact Hadd.
  split; reflexivity.
Qed.

Lemma ElasticCoef_sums_the_other_two_witness :
  yielded (ElasticCoef.get_variables Scenario.elastic Scenario.problem 0 1
             Scenario.data "col")
  = [("v", [1.1; 2.1; 3.1]%float)].
Proof.
  exact (proj1 (ElasticCoef_sums_the_other_two Scenario.elastic Scenario.rs
    Scenario.biot Scenario.problem 0 1 Scenario.data "col" "pis" "corrs_rs"
    "Pi" [0.1; 0.1; 0.1]%float "u" [1; 2; 3]%float "v"
    {| primary_var_name := "u"; field := {| n_nod := 3 |} |}
    {| primary_var_name := "u"; field := {| n_nod := 3 |} |}
    eq_refl eq_refl eq_refl eq_refl eq_refl (or_intror eq_refl) eq_refl
    eq_refl eq_refl eq_refl [1.1; 2.1; 3.1]%float eq_refl)).
Defined.

(** * The install test script: what the report functions decide *)

Section InstallScript.

Import test_install.
Local Open Scope list_scope.

(** ** Containment *)

Lemma append_String (c : ascii) (s post : string) :
  String c s +:+ post = String c (s +:+ post).
Proof. reflexivity. Qed.

Lemma prefix_app (s out : string) :
  String.prefix s out = true <-> exists post, out = s +:+ post.
Proof.
  revert out. induction s as [|c s IH]; intros out.
  - split; [intros _; exists out; reflexivity|].
    intros _. destruct out; reflexivity.
  - destruct out as [|c' out]; simpl.
    + split; [discriminate | intros [post Hpost]; discriminate].
    + destruct (Ascii.ascii_dec c c') as [-> | Hne].
      * rewrite IH.
        split; intros [post Hpost]; exists post;
          rewrite append_String in *; congruence.
      * split; [discriminate|].
        intros [post Hpost]. rewrite append_String in Hpost. congruence.
Qed.

Lemma contains_app (s out : string) :
  contains s out = true <-> exists pre post, out = pre +:+ s +:+ post.
Proof.
  induction out as [|c out IH].
  - change (contains s "") with (String.prefix s "" || false).
    rewrite orb_false_r, prefix_app. split.
    + intros [post Hpost]. exists "", post. exact Hpost.
    + intros (pre & post & Hout). destruct pre; [|discriminate].
      exists post. exact Hout.
  - change (contains s (String c out))
      with (String.prefix s (String c out) || contains s out).
    rewrite orb_true_iff, prefix_app, IH. split.
    + intros [[post Hpost] | (pre & post & Hout)].
      * exists "", post. exact Hpost.
      * exists (String c pre), post. rewrite append_String. congruence.
    + intros (pre & post & Hout). destruct pre as [|c' pre].
      * left. exists post. exact Hout.
      * right. exists pre, post. rewrite append_String in Hout. congruence.
Qed.

(** ** What [logger] writes *)

Lemma log_INFO (msg : string) :
  log logger INFO msg =
  [(Console, msg); (LogFile "test_install.log", msg)].
Proof. reflexivity. Qed.

Lemma log_ERROR (msg : string) :
  log logger ERROR msg =
  [(Console, msg); (LogFile "test_install.log", msg)].
Proof. reflexivity. Qed.

Lemma log_DEBUG (msg : string) :
  log logger DEBUG msg = [(LogFile "test_install.log", msg)].
Proof. reflexivity. Qed.

(** ** The loop of [report2] *)

Lemma report2_loop_find (out : string) (items : list string) s :
  (report2_loop out items s).2 =
  match find (fun x => negb (contains x out)) items with
  | Some x => (false, Some x)
  | None => (true, from_option Some s (last items))
  end.
Proof.
  revert s. induction items as [|x items IH]; intros s; [reflexivity|].
  simpl. destruct (contains x out); simpl; [|reflexivity].
  specialize (IH (Some x)).
  destruct (report2_loop out items (Some x)) as [ws r]. simpl in *.
  rewrite IH. destruct (find _ items); [reflexivity|].
  rewrite (last_cons x items). destruct (last items); reflexivity.
Qed.

Lemma report2_loop_all (out : string) (items : list string) s :
  Forall (fun x => occurs x out) items ->
  (report2_loop out items s).2 = (true, from_option Some s (last items)).
Proof.
  intros Hall. rewrite report2_loop_find.
  replace (find (fun x => negb (contains x out)) items) with (@None string);
    [reflexivity|].
  induction Hall as [|x items Hx _ IH]; [reflexivity|]. simpl.
  apply contains_app in Hx. rewrite Hx. exact IH.
Qed.

Lemma report2_loop_miss (out : string) (before after : list string) x s :
  Forall (fun y => occurs y out) before ->
  ~ occurs x out ->
  (report2_loop out (before ++ x :: after) s).2 = (false, Some x).
Proof.
  intros Hall Hx. rewrite report2_loop_find.
  replace (find (fun y => negb (contains y out)) (before ++ x :: after))
    with (Some x); [reflexivity|].
  assert (Hc : contains x out = false).
  { destruct (contains x out) eqn:Hc; [|reflexivity].
    exfalso. apply Hx, contains_app, Hc. }
  induction Hall as [|y before Hy _ IH]; simpl.
  - rewrite Hc. reflexivity.
  - apply contains_app in Hy. rewrite Hy. exact IH.
Qed.

Lemma report2_loop_cut (out : string) (before after after' : list string)
    x s :
  ~ occurs x out ->
  report2_loop out (before ++ x :: after) s =
  report2_loop out (before ++ x :: after') s.
Proof.
  intros Hx.
  assert (Hc : contains x out = false).
  { destruct (contains x out) eqn:Hc; [|reflexivity].
    exfalso. apply Hx, contains_app, Hc. }
  revert s. induction before as [|y before IH]; intros s; simpl.
  - rewrite Hc. reflexivity.
  - destruct (contains y out); [|reflexivity]. rewrite IH. reflexivity.
Qed.

Lemma report2_result (out name : string) (items : list string)
    (return_item : bool) :
  (report2 out name items return_item).2 =
  let '(ok, s) := (report2_loop out items None).2 in
  if return_item then
    match s with
    | Some s => inr (OkItem ok s)
    | None => inl UnboundLocalError
    end
  else inr (Ok ok).
Proof.
  unfold report2.
  destruct (report2_loop out items None) as [w1 [ok s]]. reflexivity.
Qed.

(** ** Extra: the verdict of [report2] *)

(** [report2] without [return_item] always returns a truth value, and it is
    [True] exactly when every item occurs in the output. *)
Theorem report2_verdict (out name : string) (items : list string) :
  exists ok : bool,
    (report2 out name items false).2 = inr (Ok ok) /\
    (ok = true <-> forall s, s ∈ items -> occurs s out).
Proof.
  rewrite report2_result, report2_loop_find.
  destruct (find (fun x => negb (contains x out)) items) as [x|] eqn:Hfind.
  - exists false. split; [reflexivity|]. split; [discriminate|].
    intros Hall. apply find_some in Hfind as [Hin Hx].
    apply list_elem_of_In, Hall, contains_app in Hin.
    rewrite Hin in Hx. discriminate.
  - exists true. split; [reflexivity|]. split; [|reflexivity].
    intros _ s Hs. apply contains_app.
    apply list_elem_of_In in Hs.
    pose proof (find_none _ _ Hfind s Hs) as Hc. simpl in Hc.
    destruct (contains s out); [reflexivity | discriminate].
Qed.

(** With [return_item], [report2] returns the first item that does not
    occur in the output, with [False]; when every item occurs, the last
    item, with [True]; and with no item at all it raises
    [UnboundLocalError], the loop variable never having been bound. *)
Theorem report2_returned_item (out name : string) :
  (report2 out name [] true).2 = inl UnboundLocalError /\
  (forall before x after,
     Forall (fun y => occurs y out) before -> ~ occurs x out ->
     (report2 out name (before ++ x :: after) true).2
       = inr (OkItem false x)) /\
  (forall items x,
     Forall (fun y => occurs y out) (items ++ [x]) ->
     (report2 out name (items ++ [x]) true).2 = inr (OkItem true x)).
Proof.
  split; [reflexivity|]. split.
  - intros before x after Hall Hx.
    rewrite report2_result, report2_loop_miss by assumption. reflexivity.
  - intros items x Hall.
    rewrite report2_result, report2_loop_all by exact Hall.
    rewrite last_snoc. reflexivity.
Qed.

(** The loop of [report2] stops at the first item that does not occur in
    the output: the items after it are neither looked for nor logged, so
    neither the messages nor the result depend on them. *)
Theorem report2_stops_at_first_miss
    (out name : string) (before after after' : list string) x
    (return_item : bool) :
  ~ occurs x out ->
  report2 out name (before ++ x :: after) return_item =
  report2 out name (before ++ x :: after') return_item.
Proof.
  intros Hx. unfold report2.
  rewrite (report2_loop_cut out before after after' x None Hx).
  reflexivity.
Qed.

Lemma report2_stops_at_first_miss_witness :
  report2 "computing EpA" "perfusion" ["computing EpA"; "computing GA";
    "computing KA"] true =
  report2 "computing EpA" "perfusion" ["computing EpA"; "computing GA"] true.
Proof.
  refine (report2_stops_at_first_miss "computing EpA" "perfusion"
    ["computing EpA"] ["computing KA"] [] "computing GA" true _).
  intros Hocc. apply contains_app in Hocc. discriminate.
Defined.

(** ** Console and log file *)

Lemma console_lines_app (a b : list written) :
  console_lines (a ++ b) = console_lines a ++ console_lines b.
Proof. apply omap_app. Qed.

Lemma file_lines_app (a b : list written) :
  file_lines (a ++ b) = file_lines a ++ file_lines b.
Proof. apply omap_app. Qed.

Lemma mirrored_nil : mirrored [].
Proof. reflexivity. Qed.

Lemma mirrored_INFO (msg : string) : mirrored (log logger INFO msg).
Proof. reflexivity. Qed.

Lemma mirrored_ERROR (msg : string) : mirrored (log logger ERROR msg).
Proof. reflexivity. Qed.

Lemma mirrored_app (a b : list written) :
  mirrored a -> mirrored b -> mirrored (a ++ b).
Proof.
  unfold mirrored. intros Ha Hb.
  rewrite file_lines_app, console_lines_app, Ha, Hb. reflexivity.
Qed.

Lemma report2_loop_mirrored (out : string) (items : list string) s :
  mirrored (report2_loop out items s).1.
Proof.
  revert s. induction items as [|x items IH]; intros s; simpl.
  - apply mirrored_nil.
  - destruct (contains x out).
    + specialize (IH (Some x)).
      destruct (report2_loop out items (Some x)) as [ws r]. simpl in *.
      apply (mirrored_app (log logger INFO _) ws); [apply mirrored_INFO|].
      exact IH.
    + apply mirrored_INFO.
Qed.

(** A verdict logged at [INFO], then the output at [DEBUG] when it is
    [False]: the log file gets what the console gets, and the output. *)
Lemma saved_when_failed (w1 : list written) (name out : string) (ok : bool) :
  mirrored w1 ->
  file_lines (w1 ++ log logger INFO name
                 ++ (if ok then [] else log logger DEBUG (DEBUG_FMT out))) =
  console_lines (w1 ++ log logger INFO name
                    ++ (if ok then [] else log logger DEBUG (DEBUG_FMT out)))
  ++ (if ok then [] else [DEBUG_FMT out]).
Proof.
  intros Hw1.
  rewrite !file_lines_app, !console_lines_app, Hw1.
  destruct ok; simpl; rewrite ?app_nil_r; [reflexivity|].
  rewrite <- !app_assoc. reflexivity.
Qed.

(** ** Extra: where a failed output goes *)

(** Called without [return_item], each of [report], [report2] and
    [report_tests] returns a truth value, never an exception, and writes to
    the log file exactly what it writes to the console, followed by the
    whole output when the value is [False]: the output of a failed check is
    saved to the file and never shown on the console, and the output of a
    passed check is written nowhere. *)
Theorem failed_output_is_saved_to_the_log_file
    findall_numbers float_of_str search
    (out name : string) (line item : Z) (value : string)
    (eps : option float) (match_numbers : bool) (items : list string) :
  saves_failed_output out
    (report findall_numbers float_of_str out name line item value eps false
       match_numbers) /\
  saves_failed_output out (report2 out name items false) /\
  saves_failed_output out (report_tests search out false).
Proof.
  split; [|split].
  - unfold report.
    destruct (list_getitem (split_lines out) line) as [e|l].
    + exists false. split; [reflexivity|].
      apply (saved_when_failed _ _ out false), mirrored_ERROR.
    + destruct (if match_numbers then list_getitem (findall_numbers l) item
                else status_getitem
                       (if match_numbers then StatusLine l
                        else StatusWords (split l)) item) as [e|si].
      * exists false. split; [reflexivity|].
        apply (saved_when_failed _ _ out false), mirrored_nil.
      * eexists. split; [reflexivity|].
        apply saved_when_failed, mirrored_INFO.
  - unfold report2.
    pose proof (report2_loop_mirrored out items None) as Hw.
    destruct (report2_loop out items None) as [w1 [ok s]].
    exists ok. split; [reflexivity|].
    apply saved_when_failed, Hw.
  - unfold report_tests.
    destruct (search out) as [[[[g1 g2] g3] g4]|].
    + eexists. split; [reflexivity|].
      apply (saved_when_failed [] _ out), mirrored_nil.
    + exists true. split; reflexivity.
Qed.

(** ** Extra: [report] *)

(** When the output has no line [line], [report] logs that there is not
    enough output, judges [False] and saves the output; asked for the item
    as well, it raises [UnboundLocalError], [status] never having been
    bound. *)
Theorem report_not_enough_output
    findall_numbers float_of_str
    (out name : string) (line item : Z) (value : string)
    (eps : option float) (return_item match_numbers : bool) e :
  list_getitem (split_lines out) line = inl e ->
  report findall_numbers float_of_str out name line item value eps
    return_item match_numbers =
  (log logger ERROR "  not enough output from command!"
     ++ log logger INFO ("  " +:+ name +:+ ": False")
     ++ log logger DEBUG (DEBUG_FMT out),
   if return_item then inl UnboundLocalError else inr (Ok false)).
Proof. intros Hline. unfold report. rewrite Hline. reflexivity. Qed.

Lemma report_not_enough_output_witness :
  (report (fun _ => []) (fun _ => None) "" "blockgen" (-2) 1 "...done" None
     true false).2 = inl UnboundLocalError.
Proof.
  exact (f_equal snd (report_not_enough_output (fun _ => [])
    (fun _ => None) "" "blockgen" (-2) 1 "...done" None true false
    _ eq_refl)).
Defined.

(** Comparing words ([eps] is [None], no [match_numbers]), [report] judges
    [True] exactly when the output has a line [line], that line has a word
    [item], and the word is [value]. *)
Theorem report_compares_the_word
    findall_numbers float_of_str
    (out name : string) (line item : Z) (value : string) :
  exists ok : bool,
    (report findall_numbers float_of_str out name line item value None
       false false).2 = inr (Ok ok) /\
    (ok = true <->
     exists l, list_getitem (split_lines out) line = inr l /\
               list_getitem (split l) item = inr value).
Proof.
  unfold report.
  destruct (list_getitem (split_lines out) line) as [e|l].
  - exists false. split; [reflexivity|]. split; [discriminate|].
    intros (l & Hl & _). discriminate.
  - simpl. destruct (list_getitem (split l) item) as [e|w] eqn:Hitem.
    + exists false. split; [reflexivity|]. split; [discriminate|].
      intros (l' & [= <-] & Hw). rewrite Hitem in Hw. discriminate.
    + exists (String.eqb w value). split; [reflexivity|].
      rewrite String.eqb_eq. split.
      * intros ->. exists l. split; [reflexivity | exact Hitem].
      * intros (l' & [= <-] & Hw). rewrite Hitem in Hw.
        injection Hw as ->. reflexivity.
Qed.

(** With [match_numbers] and [return_item], the item [report] returns is
    [status[item]] where [status] is the line itself: one character of the
    line, not the number that was compared. *)
Theorem report_returns_a_character
    findall_numbers float_of_str
    (out name : string) (line item : Z) (value : string)
    (eps : option float) (ok : bool) (x : string) :
  (report findall_numbers float_of_str out name line item value eps
     true true).2 = inr (OkItem ok x) ->
  exists l c,
    list_getitem (split_lines out) line = inr l /\
    list_getitem (String.list_ascii_of_string l) item = inr c /\
    x = String c EmptyString.
Proof.
  unfold report.
  destruct (list_getitem (split_lines out) line) as [e|l]; [discriminate|].
  assert (Hret : forall ok',
    match status_getitem (StatusLine l) item with
    | inl _ => inl test_install.IndexError
    | inr x' => inr (OkItem ok' x')
    end = inr (OkItem ok x) ->
    exists l0 c, @inr exn _ l = inr l0 /\
      list_getitem (String.list_ascii_of_string l0) item = inr c /\
      x = String c EmptyString).
  { intros ok'. simpl. unfold str_getitem.
    destruct (list_getitem (String.list_ascii_of_string l) item) as [e|c]
      eqn:Hc; [discriminate|].
    intros [= _ <-]. exists l, c. split; [reflexivity|].
    split; [exact Hc | reflexivity]. }
  simpl. destruct (list_getitem (findall_numbers l) item) as [e|si]; simpl;
    apply Hret.
Qed.

Lemma report_returns_a_character_witness :
  exists l c,
    list_getitem (split_lines "2.5e+08 Hz") (-1) = inr l /\
    list_getitem (String.list_ascii_of_string l) 0 = inr c /\
    "2" = String c EmptyString.
Proof.
  exact (report_returns_a_character (fun _ => ["2.5e+08"]) (fun _ => None)
    "2.5e+08 Hz" "band gaps" (-1) 0 "2.5e+08" None true "2" eq_refl).
Defined.

(** Comparing words, when the line is there but has no word [item],
    [report] judges [False] without a ['comparing'] message and saves the
    output; asked for the item as well, it then raises the [IndexError] of
    [status[item]], which nothing catches. *)
Theorem report_item_out_of_range
    findall_numbers float_of_str
    (out name : string) (line item : Z) (value : string)
    (eps : option float) (return_item : bool) l e :
  list_getitem (split_lines out) line = inr l ->
  list_getitem (split l) item = inl e ->
  report findall_numbers float_of_str out name line item value eps
    return_item false =
  (log logger INFO ("  " +:+ name +:+ ": False")
     ++ log logger DEBUG (DEBUG_FMT out),
   if return_item then inl test_install.IndexError else inr (Ok false)).
Proof.
  intros Hl Hw. unfold report. rewrite Hl.
  cbn [status_getitem]. rewrite Hw.
  cbv beta iota. cbn [status_getitem]. rewrite Hw.
  destruct return_item; reflexivity.
Qed.

Lemma report_item_out_of_range_witness :
  (report (fun _ => []) (fun _ => None) "mesh written" "convert" (-1) 5
     "...done" None true false).2 = inl test_install.IndexError.
Proof.
  exact (f_equal snd (report_item_out_of_range (fun _ => [])
    (fun _ => None) "mesh written" "convert" (-1) 5 "...done" None true
    "mesh written" _ eq_refl eq_refl)).
Defined.

(** ** Extra: [report_tests] *)

(** When the summary pattern is not found in the output, [report_tests]
    judges [True] with ['0'] failed tests and saves nothing: the [False] set
    in the exception handler is overwritten by the comparison of
    [stats[0]] with ['0']. *)
Theorem report_tests_without_summary search (out : string)
    (return_item : bool) :
  search out = None ->
  report_tests search out return_item =
  (log logger INFO "  0 failed, 0 passed, 0 warnings in -1 seconds",
   if return_item then inr (OkItem true "0") else inr (Ok true)).
Proof.
  intros Hs. unfold report_tests. rewrite Hs.
  destruct return_item; reflexivity.
Qed.

Lemma report_tests_without_summary_witness :
  (report_tests (fun _ => None) "Traceback (most recent call last):" true).2
  = inr (OkItem true "0").
Proof.
  exact (f_equal snd (report_tests_without_summary (fun _ => None)
    "Traceback (most recent call last):" true eq_refl)).
Defined.

(** When the summary pattern is found, [report_tests] judges [True]
    exactly when the group of failed tests did not take part in the match
    or is the string ['0'], and the item it returns is that count, ['0']
    standing for an absent group. *)
Theorem report_tests_verdict search (out : string) g1 g2 g3 g4 :
  search out = Some (g1, g2, g3, g4) ->
  exists ok : bool,
    (report_tests search out true).2 = inr (OkItem ok (or_zero g1)) /\
    (ok = true <-> g1 = None \/ g1 = Some "0").
Proof.
  intros Hs. unfold report_tests. rewrite Hs. simpl.
  exists (String.eqb (or_zero g1) "0"). split; [reflexivity|].
  rewrite String.eqb_eq. destruct g1 as [s|]; simpl.
  - split; [intros ->; right; reflexivity|].
    intros [?|[= ->]]; [discriminate | reflexivity].
  - split; [left; reflexivity | reflexivity].
Qed.

Lemma report_tests_verdict_witness :
  exists ok : bool,
    (report_tests (fun _ => Some (Some "2", Some "5", None, Some "1.5"))
       "2 failed, 5 passed in 1.5 seconds" true).2
      = inr (OkItem ok "2") /\
    (ok = true <-> Some "2" = None \/ Some "2" = Some "0").
Proof.
  exact (report_tests_verdict
    (fun _ => Some (Some "2", Some "5", None, Some "1.5"))
    "2 failed, 5 passed in 1.5 seconds" (Some "2") (Some "5") None
    (Some "1.5") eq_refl).
Defined.

End InstallScript.

(** * The build script: stamping the version, composing the arguments *)

Section BuildScript.

Import setup_test.
Local Open Scope list_scope.

Local Abbreviation split := test_install.split.
Local Abbreviation isspace := test_install.isspace.
Local Abbreviation occurs := test_install.occurs.
Local Abbreviation contains := test_install.contains.
Local Abbreviation LF := test_install.LF.

(** ** Splitting and joining words *)

Lemma split_space (c : ascii) (rest : string) :
  isspace c = true -> split (String c rest) = split rest.
Proof. intros Hc. simpl. rewrite Hc. reflexivity. Qed.

Lemma is_word_String (c : ascii) (w : string) :
  is_word (String c w) <->
  isspace c = false /\ (w = "" \/ is_word w).
Proof.
  unfold is_word. simpl. rewrite Forall_cons. split.
  - intros (_ & Hc & Hw). split; [exact Hc|].
    destruct w as [|c' w]; [left; reflexivity|].
    right. split; [discriminate | exact Hw].
  - intros (Hc & [-> | [_ Hw]]).
    + split; [discriminate|]. split; [exact Hc | constructor].
    + split; [discriminate|]. split; assumption.
Qed.

(** A word followed by white space is the first word of the line. *)
Lemma split_word_then_space (w : string) (sp : ascii) (rest : string) :
  is_word w -> isspace sp = true ->
  split (w +:+ String sp rest) = w :: split rest.
Proof.
  intros Hw Hsp. induction w as [|c w IH]; [destruct Hw; congruence|].
  apply is_word_String in Hw as (Hc & Hw).
  rewrite append_String.
  change (split (String c (w +:+ String sp rest))) with
    (if isspace c then split (w +:+ String sp rest)
     else match w +:+ String sp rest with
          | EmptyString => [String c EmptyString]
          | String c' _ =>
              if isspace c' then
                String c EmptyString :: split (w +:+ String sp rest)
              else match split (w +:+ String sp rest) with
                   | [] => [String c EmptyString]
                   | t :: ts => String c t :: ts
                   end
          end).
  rewrite Hc. destruct Hw as [-> | Hw].
  - change ("" +:+ String sp rest) with (String sp rest).
    cbv beta iota. rewrite Hsp, split_space by exact Hsp. reflexivity.
  - rewrite (IH Hw).
    destruct w as [|c' w]; [destruct Hw; congruence|].
    apply is_word_String in Hw as (Hc' & _).
    rewrite append_String. cbv beta iota. rewrite Hc'. reflexivity.
Qed.

Lemma append_assoc (a b c : string) : (a +:+ b) +:+ c = a +:+ b +:+ c.
Proof.
  induction a as [|x a IH]; [reflexivity|].
  rewrite !append_String, IH. reflexivity.
Qed.

(** Joining words with single spaces and closing the line gives a line
    with exactly these words. *)
Lemma split_concat (ws : list string) :
  Forall is_word ws ->
  split (String.concat " " ws +:+ String LF "") = ws.
Proof.
  induction 1 as [|w ws Hw Hws IH]; [reflexivity|].
  destruct ws as [|w' ws].
  - simpl String.concat.
    rewrite split_word_then_space by (exact Hw || reflexivity).
    reflexivity.
  - change (String.concat " " (w :: w' :: ws))
      with (w +:+ " " +:+ String.concat " " (w' :: ws)).
    rewrite append_assoc.
    change ((" " +:+ String.concat " " (w' :: ws)) +:+ String LF "")
      with (String " " (String.concat " " (w' :: ws) +:+ String LF "")).
    rewrite split_word_then_space by (exact Hw || reflexivity).
    rewrite IH. reflexivity.
Qed.

(** Every element of [line.split()] is a word. *)
Lemma split_words (line : string) : Forall is_word (split line).
Proof.
  induction line as [|c line IH]; [constructor|].
  change (split (String c line)) with
    (if isspace c then split line
     else match line with
          | EmptyString => [String c EmptyString]
          | String c' _ =>
              if isspace c' then String c EmptyString :: split line
              else match split line with
                   | [] => [String c EmptyString]
                   | t :: ts => String c t :: ts
                   end
          end).
  destruct (isspace c) eqn:Hc; [exact IH|].
  assert (Hone : is_word (String c "")).
  { apply is_word_String. split; [exact Hc | left; reflexivity]. }
  destruct line as [|c' line]; [constructor; [exact Hone | constructor]|].
  destruct (isspace c'); [constructor; [exact Hone | exact IH]|].
  destruct (split (String c' line)) as [|t ts];
    [constructor; [exact Hone | constructor]|].
  apply Forall_cons in IH as [Ht Hts].
  constructor; [|exact Hts].
  apply is_word_String. split; [exact Hc | right; exact Ht].
Qed.

Lemma contains_false (s out : string) :
  ~ occurs s out -> contains s out = false.
Proof.
  intros Hno. destruct (contains s out) eqn:Hc; [|reflexivity].
  exfalso. apply Hno, contains_app, Hc.
Qed.

Lemma stamp_line_unmarked (VERSION line : string) :
  ~ occurs marker line -> stamp_line VERSION line = inr line.
Proof.
  intros Hno. unfold stamp_line. rewrite contains_false by exact Hno.
  reflexivity.
Qed.

(** ** Extra: the line that carries the version *)

(** For a line that contains the marker and has at least three words, and
    a version that is one word, the line written to [version.h] ends with a
    line feed and has the words of the line read, the third one replaced
    by the version. *)
Theorem stamp_line_replaces_the_third_word (VERSION line : string) :
  occurs marker line ->
  is_word VERSION ->
  (3 <= length (split line))%nat ->
  exists body : string,
    stamp_line VERSION line = inr (body +:+ String LF "") /\
    split (body +:+ String LF "") = <[2%nat := VERSION]> (split line).
Proof.
  intros Hm Hv Hlen. unfold stamp_line, list_setitem.
  apply contains_app in Hm. rewrite Hm.
  rewrite decide_True by lia.
  eexists. split; [reflexivity|].
  apply split_concat, Forall_insert; [apply split_words | exact Hv].
Qed.

Lemma stamp_line_replaces_the_third_word_witness :
  exists body : string,
    stamp_line "2024.1" ("#define " +:+ marker) =
      inr (body +:+ String LF "") /\
    split (body +:+ String LF "") = ["#define"; "VERSION"; "2024.1"].
Proof.
  refine (stamp_line_replaces_the_third_word "2024.1" ("#define " +:+ marker)
            _ _ _).
  - exists "#define ", "". reflexivity.
  - split; [discriminate | repeat constructor].
  - simpl. lia.
Defined.

(** ** Extra: the other lines *)

(** When the loop over [version.h.in] ends without exception, [version.h]
    has as many lines as were read, and every line without the marker is
    written unchanged at its position. *)
Theorem stamp_copies_the_other_lines (VERSION : string)
    (fdi fdo : list string) :
  stamp VERSION fdi = (fdo, None) ->
  length fdo = length fdi /\
  forall (i : nat) (line : string),
    fdi !! i = Some line -> ~ occurs marker line -> fdo !! i = Some line.
Proof.
  revert fdo. induction fdi as [|l fdi IH]; intros fdo Hrun; simpl in Hrun.
  - injection Hrun as <-. split; [reflexivity|]. intros i line Hi. inversion Hi.
  - destruct (stamp_line VERSION l) as [e|l'] eqn:Hl; [discriminate|].
    destruct (stamp VERSION fdi) as [fdo' e'].
    injection Hrun as <- ->.
    destruct (IH fdo' eq_refl) as [Hlen Hcopy].
    split; [simpl; congruence|].
    intros [|i] line Hi Hno; simpl in *.
    + injection Hi as ->.
      rewrite stamp_line_unmarked in Hl by exact Hno. congruence.
    + apply Hcopy; assumption.
Qed.

Lemma stamp_copies_the_other_lines_witness :
  length ["/* version */"; "#define VERSION 2024.1" +:+ String LF ""]
  = length ["/* version */"; "#define " +:+ marker].
Proof.
  exact (proj1 (stamp_copies_the_other_lines "2024.1"
    ["/* version */"; "#define " +:+ marker]
    ["/* version */"; "#define VERSION 2024.1" +:+ String LF ""] eq_refl)).
Defined.

(** ** Extra: a marker line that is too short *)

(** A line that contains the marker but has fewer than three words stops
    the script with the [IndexError] of [aux[2] = VERSION]; when no line
    before it contains the marker, these lines have been written unchanged
    and nothing after them is. *)
Theorem stamp_stops_on_a_short_marker_line (VERSION : string)
    (before after : list string) (line : string) :
  Forall (fun l => ~ occurs marker l) before ->
  occurs marker line ->
  (length (split line) < 3)%nat ->
  stamp VERSION (before ++ line :: after) = (before, Some IndexError).
Proof.
  intros Hbefore Hm Hlen.
  induction Hbefore as [|l before Hl _ IH]; simpl.
  - unfold stamp_line, list_setitem.
    apply contains_app in Hm. rewrite Hm.
    rewrite decide_False by lia. reflexivity.
  - rewrite stamp_line_unmarked by exact Hl. rewrite IH. reflexivity.
Qed.

Lemma stamp_stops_on_a_short_marker_line_witness :
  (stamp "2024.1" ["/* version */"; marker; "#endif"]).1 = ["/* version */"].
Proof.
  refine (f_equal fst (stamp_stops_on_a_short_marker_line "2024.1"
    ["/* version */"] ["#endif"] marker _ _ _)).
  - constructor; [|constructor].
    intros Hocc. apply contains_app in Hocc. discriminate.
  - exists "", "". reflexivity.
  - simpl. lia.
Defined.

(** ** Extra: the debug switches passed to CMake *)

(** [compose_cmake_args] always returns three arguments, the C flags joined
    by spaces and the two debug switches, each given explicitly: a switch
    is [ON] exactly when its name is among the debug flags of the
    configuration, and no other debug flag is passed on. *)
Theorem compose_cmake_args_debug_switches
    (compile_flags debug_flags : list string) :
  exists fmf mesh : bool,
    compose_cmake_args compile_flags debug_flags =
    ["-DCMAKE_C_FLAGS=" +:+ String.concat " " compile_flags;
     "-DDEBUG_FMF=" +:+ (if fmf then "ON" else "OFF");
     "-DDEBUG_MESH=" +:+ (if mesh then "ON" else "OFF")] /\
    (fmf = true <-> "DEBUG_FMF" ∈ debug_flags) /\
    (mesh = true <-> "DEBUG_MESH" ∈ debug_flags).
Proof.
  exists (bool_decide ("DEBUG_FMF" ∈ (list_to_set debug_flags : gset string))),
         (bool_decide ("DEBUG_MESH" ∈ (list_to_set debug_flags : gset string))).
  split; [reflexivity|].
  split; rewrite bool_decide_eq_true; apply elem_of_list_to_set.
Qed.

End BuildScript.

(** * The command wrapper: scripts and their commands *)

Section CommandWrapper.

Import sfepy_wrapper.
Local Open Scope list_scope.

Lemma rcut_absent (c : ascii) (p : string) :
  Forall (fun x => x <> c) (String.list_ascii_of_string p) ->
  rcut c p = None.
Proof.
  induction p as [|x p IH]; [reflexivity|]. simpl.
  intros Hall. apply Forall_cons in Hall as [Hx Hp].
  rewrite (IH Hp).
  destruct (Ascii.eqb_spec x c) as [->|_]; [congruence | reflexivity].
Qed.

Lemma rcut_last (c : ascii) (a b : string) :
  Forall (fun x => x <> c) (String.list_ascii_of_string b) ->
  rcut c (a +:+ String c b) = Some (a, b).
Proof.
  intros Hb. induction a as [|x a IH].
  - change ("" +:+ String c b) with (String c b). simpl.
    rewrite (rcut_absent c b Hb), Ascii.eqb_refl. reflexivity.
  - rewrite append_String. simpl. rewrite IH. reflexivity.
Qed.

Lemma list_ascii_app (a b : string) :
  String.list_ascii_of_string (a +:+ b) =
  String.list_ascii_of_string a ++ String.list_ascii_of_string b.
Proof.
  induction a as [|x a IH]; [reflexivity|].
  rewrite append_String. simpl. rewrite IH. reflexivity.
Qed.

(** The command of a script is its file name without [.py]. *)
Lemma command_of_script (bin_dir stem : string) :
  matched_stem stem ->
  (splitext (basename (script bin_dir stem))).1 = stem.
Proof.
  destruct stem as [|c stem]; [intros []|]. intros [Hdot Hslash].
  assert (Hname : Forall (fun x => x <> "/"%char)
            (String.list_ascii_of_string (String c stem +:+ ".py"))).
  { rewrite list_ascii_app. apply Forall_app. split; [exact Hslash|].
    repeat constructor; discriminate. }
  unfold script, basename. rewrite (rcut_last "/" _ _ Hname).
  unfold splitext. rewrite (rcut_absent "/" _ Hname).
  unfold splitext_name.
  change (String c stem +:+ ".py") with (String c stem +:+ String "." "py").
  rewrite rcut_last by (repeat constructor; discriminate).
  cbn [forallb String.list_ascii_of_string].
  destruct (Ascii.eqb_spec "." c) as [<-|_]; [congruence | reflexivity].
Qed.

Lemma dict_snoc (pairs : list (string * string)) k v :
  dict (pairs ++ [(k, v)]) = <[k := v]> (dict pairs).
Proof. unfold dict. rewrite foldl_app. reflexivity. Qed.

Lemma dict_lookup_graph (g : string -> string) (l : list string) k :
  dict (map (fun s => (s, g s)) l) !! k =
  if decide (k ∈ l) then Some (g k) else None.
Proof.
  induction l as [|s l IH] using rev_ind.
  - rewrite decide_False by apply not_elem_of_nil. apply lookup_empty.
  - rewrite map_app. simpl map. rewrite dict_snoc.
    destruct (decide (s = k)) as [->|Hne].
    + rewrite lookup_insert_eq.
      rewrite decide_True by (apply elem_of_app; right; left).
      reflexivity.
    + rewrite lookup_insert_ne by exact Hne. rewrite IH.
      destruct (decide (k ∈ l)) as [Hin|Hout].
      * rewrite decide_True by (apply elem_of_app; left; exact Hin).
        reflexivity.
      * rewrite decide_False; [reflexivity|].
        intros Hin. apply elem_of_app in Hin as [Hin|Hin]; [tauto|].
        apply list_elem_of_singleton in Hin. congruence.
Qed.

Lemma commands_pairs (bin_dir : string) (stems : list string) :
  Forall matched_stem stems ->
  zip (map (fun i => (splitext (basename i)).1) (map (script bin_dir) stems))
      (map (script bin_dir) stems) =
  map (fun s => (s, script bin_dir s)) stems.
Proof.
  induction 1 as [|s stems Hs _ IH]; [reflexivity|].
  simpl. rewrite (command_of_script bin_dir s Hs), IH. reflexivity.
Qed.

(** ** Extra: every script is a command *)

(** When the directory holds the scripts [stem.py] for the given stems,
    [get_commands] maps each stem to the path of its script and has no
    other key: the command is the file name without directory and without
    [.py], also when the stem itself contains dots. *)
Theorem get_commands_names_every_script
    (bin_dir : string) (stems : list string) (k : string) :
  Forall matched_stem stems ->
  (k ∈ stems ->
   get_commands (map (script bin_dir) stems) !! k = Some (script bin_dir k))
  /\
  (k ∉ stems -> get_commands (map (script bin_dir) stems) !! k = None).
Proof.
  intros Hstems. unfold get_commands.
  rewrite (commands_pairs bin_dir stems Hstems), dict_lookup_graph.
  split; intros Hk.
  - rewrite decide_True by exact Hk. reflexivity.
  - rewrite decide_False by exact Hk. reflexivity.
Qed.

Lemma get_commands_names_every_script_witness :
  get_commands (map (script "scripts-common") ["simple"; "run.tests"])
    !! "run.tests" = Some "scripts-common/run.tests.py".
Proof.
  refine (proj1 (get_commands_names_every_script "scripts-common"
    ["simple"; "run.tests"] "run.tests" _) _).
  - repeat constructor; discriminate.
  - right. left.
Defined.

End CommandWrapper.
